(** * AEO platform: scoring engine and knowledge graph service

    A shallow embedding of [backend/services/enrichment.py]
    ([calculate_aeo_score]) and [backend/services/knowledge_graph.py]
    ([KnowledgeGraphService]), with the properties of the scoring engine,
    of the graph build, of the discovery round, of the recommendations
    and of the batch run stated and proved against the embedding. *)

From Stdlib Require Import ZArith QArith String Ascii List Lia Bool.
From stdpp Require Import base option list sorting gmap strings pretty.

Local Open Scope string_scope.
Local Open Scope list_scope.
Local Open Scope Z_scope.

(** ** Python values and the built-ins the services use *)

Module Py.

(** The exceptions the modelled code can raise. *)
Inductive pyerr : Type :=
  | TypeError
  | AttributeError
  | KeyError
  | ValueError
  | Exception_.

Inductive result (A : Type) : Type :=
  | Ok (a : A)
  | Err (e : pyerr).
Arguments Ok {A} a.
Arguments Err {A} e.

Definition bind {A B : Type} (m : result A) (k : A -> result B) : result B :=
  match m with
  | Ok a => k a
  | Err e => Err e
  end.

Definition is_ok {A : Type} (m : result A) : bool :=
  match m with
  | Ok _ => true
  | Err _ => false
  end.

(** A value of a [Dict[str, Any]] that came out of [json.loads] or of a
    database row. *)
#[warnings="-register-all"]
Inductive pyval : Type :=
  | PNone
  | PBool (b : bool)
  | PInt (z : Z)
  | PFloat (q : Q)
  | PStr (s : string)
  | PList (l : list pyval)
  | PDict (d : list (string * pyval)).

(** [d.get(key, default)]: the default is used only when the key is
    missing; a key bound to [None] yields [None]. *)
Definition get (d : gmap string pyval) (key : string) (dflt : pyval) : pyval :=
  match d !! key with
  | Some v => v
  | None => dflt
  end.

Fixpoint str_len (s : string) : nat :=
  match s with
  | EmptyString => O
  | String _ s' => S (str_len s')
  end.

(** [len(v)]. *)
Definition len (v : pyval) : result Z :=
  match v with
  | PStr s => Ok (Z.of_nat (str_len s))
  | PList l => Ok (Z.of_nat (length l))
  | PDict d => Ok (Z.of_nat (length d))
  | PNone | PBool _ | PInt _ | PFloat _ => Err TypeError
  end.

(** Characters are code points below 256.  [str.lower] maps [A-Z] and the
    Latin-1 capitals U+00C0..U+00DE (U+00D7 excepted) 32 places up. *)
Definition lower_char (c : ascii) : ascii :=
  let n := nat_of_ascii c in
  if ((65 <=? n)%nat && (n <=? 90)%nat)
     || ((192 <=? n)%nat && (n <=? 222)%nat && negb (n =? 215)%nat)
  then ascii_of_nat (n + 32)
  else c.

Fixpoint lower_str (s : string) : string :=
  match s with
  | EmptyString => EmptyString
  | String c s' => String (lower_char c) (lower_str s')
  end.

(** [v.lower()]: only [str] has the method. *)
Definition lower (v : pyval) : result string :=
  match v with
  | PStr s => Ok (lower_str s)
  | _ => Err AttributeError
  end.

(** [str.isspace] on one character. *)
Definition is_space (c : ascii) : bool :=
  let n := nat_of_ascii c in
  ((9 <=? n)%nat && (n <=? 13)%nat)
  || ((28 <=? n)%nat && (n <=? 32)%nat)
  || (n =? 133)%nat || (n =? 160)%nat.

(** [s.split()] with no separator: maximal runs of non-space characters.
    [cur] is the word being read, in reverse. *)
Fixpoint split_go (s : string) (cur : list ascii) : list string :=
  match s with
  | EmptyString =>
      match cur with
      | [] => []
      | _ => [string_of_list_ascii (rev cur)]
      end
  | String c s' =>
      if is_space c then
        match cur with
        | [] => split_go s' []
        | _ => string_of_list_ascii (rev cur) :: split_go s' []
        end
      else split_go s' (c :: cur)
  end.

Definition split (v : pyval) : result (list string) :=
  match v with
  | PStr s => Ok (split_go s [])
  | _ => Err AttributeError
  end.

Fixpoint is_prefix (p s : string) : bool :=
  match p, s with
  | EmptyString, _ => true
  | String a p', String b s' => if Ascii.eqb a b then is_prefix p' s' else false
  | String _ _, EmptyString => false
  end.

(** [p in s] on two [str]: [p] occurs in [s] as a contiguous slice. *)
Fixpoint str_in (p s : string) : bool :=
  is_prefix p s ||
  match s with
  | EmptyString => false
  | String _ s' => str_in p s'
  end.

(** Truth value of a [str]. *)
Definition str_truthy (s : string) : bool :=
  match s with
  | EmptyString => false
  | String _ _ => true
  end.

(** [a or b] where [a] is a nullable [str] column. *)
Definition str_or (a : option string) (b : string) : string :=
  match a with
  | Some (String c s) => String c s
  | Some EmptyString | None => b
  end.

(** [a or b] on two nullable [str]. *)
Definition opt_or (a b : option string) : option string :=
  match a with
  | Some (String c s) => Some (String c s)
  | Some EmptyString | None => b
  end.

(** [d[key]] on a key that may be missing. *)
Definition getitem {A : Type} (o : option A) : result A :=
  match o with
  | Some a => Ok a
  | None => Err KeyError
  end.

(** [x < y] on two finite floats, read as the rationals they denote. *)
Definition float_lt (x y : Q) : bool := negb (Qle_bool y x).

(** [l[:n]]: a negative bound counts from the end. *)
Definition slice_to {A : Type} (l : list A) (n : Z) : list A :=
  if 0 <=? n then firstn (Z.to_nat n) l
  else firstn (Z.to_nat (Z.of_nat (length l) + n)) l.

End Py.

Import Py.

Notation "x <~ m ;; k" := (bind m (fun x => k))
  (at level 100, m at next level, right associativity).

(** ** [services/enrichment.py] *)

Module Enrichment.

Record score_breakdown : Type := {
  title_optimization : Z;
  attribute_completeness : Z;
  semantic_richness : Z;
  structured_data : Z;
  consistency : Z;
  details : gmap string string
}.

Definition fmt (n : Z) : string := pretty n.

Definition calculate_aeo_score (enriched_data product_data : gmap string pyval)
  : result (Z * score_breakdown) :=
  let details0 : gmap string string := ∅ in
  (* 1. Title Optimization (20 points) *)
  let title := get enriched_data "enriched_title" (PStr "") in
  title_len <~ len title ;;
  let '(title_optimization_, details1) :=
    if (45 <=? title_len) && (title_len <=? 60) then
      (20, <["title" := "Optimal length"]> details0)
    else if ((40 <=? title_len) && (title_len <? 45))
            || ((60 <? title_len) && (title_len <=? 70)) then
      (15, <["title" := "Acceptable length"]> details0)
    else if 0 <? title_len then
      (10, <["title" := "Suboptimal length"]> details0)
    else (0, details0) in
  (* 2. Attribute Completeness (20 points) *)
  let attributes := get enriched_data "key_attributes" (PList []) in
  attr_count <~ len attributes ;;
  let '(attribute_completeness_, details2) :=
    if 7 <=? attr_count then
      (20, <["attributes" := fmt attr_count +:+ " attributes (excellent)"]> details1)
    else if 5 <=? attr_count then
      (15, <["attributes" := fmt attr_count +:+ " attributes (good)"]> details1)
    else if 3 <=? attr_count then
      (10, <["attributes" := fmt attr_count +:+ " attributes (acceptable)"]> details1)
    else
      (5, <["attributes" := fmt attr_count +:+ " attributes (poor)"]> details1) in
  (* 3. Semantic Richness (20 points) *)
  let description := get enriched_data "long_description" (PStr "") in
  words <~ split description ;;
  let word_count := Z.of_nat (length words) in
  let faqs := get enriched_data "faqs" (PList []) in
  faq_count <~ len faqs ;;
  let desc_score :=
    if (150 <=? word_count) && (word_count <=? 200) then 10
    else if ((120 <=? word_count) && (word_count <? 150))
            || ((200 <? word_count) && (word_count <=? 250)) then 7
    else if 0 <? word_count then 5
    else 0 in
  let faq_score :=
    if 5 <=? faq_count then 10
    else if 3 <=? faq_count then 7
    else if 0 <? faq_count then 5
    else 0 in
  let semantic_richness_ := desc_score + faq_score in
  let details3 :=
    <["semantic" := fmt word_count +:+ " words, " +:+ fmt faq_count +:+ " FAQs"]>
      details2 in
  (* 4. Structured Data (20 points) *)
  let tags := get enriched_data "semantic_tags" (PList []) in
  let use_cases := get enriched_data "use_cases" (PList []) in
  tags_len <~ len tags ;;
  let tags_score := Z.min (tags_len * 2) 10 in  (* Up to 10 points *)
  use_cases_len <~ len use_cases ;;
  let use_cases_score := Z.min (use_cases_len * 3) 10 in  (* Up to 10 points *)
  let structured_data_ := tags_score + use_cases_score in
  let details4 :=
    <["structured" :=
        fmt tags_len +:+ " tags, " +:+ fmt use_cases_len +:+ " use cases"]>
      details3 in
  (* 5. Consistency (20 points) *)
  let consistency_score := 20 in
  original_title <~ lower (get product_data "raw_title" (PStr "")) ;;
  enriched_title <~ lower title ;;
  (* Check brand consistency *)
  brand <~ lower (get product_data "brand" (PStr "")) ;;
  let '(consistency_score1, details5) :=
    if str_truthy brand && negb (str_in brand enriched_title)
       && str_in brand original_title then
      (consistency_score - 5,
       <["consistency" := "Brand missing from enriched title"]> details4)
    else (consistency_score, details4) in
  (* Check category alignment *)
  category <~ lower (get product_data "category" (PStr "")) ;;
  let category_missing : result bool :=
    if str_truthy category then
      d <~ lower description ;; Ok (negb (str_in category d))
    else Ok false in
  missing <~ category_missing ;;
  let '(consistency_score2, details6) :=
    if missing then
      (consistency_score1 - 5,
       match details5 !! "consistency" with
       | Some msg =>
           <["consistency" := msg +:+ ", category not mentioned"]> details5
       | None =>
           <["consistency" := "Category not mentioned in description"]> details5
       end)
    else (consistency_score1, details5) in
  let details7 :=
    if consistency_score2 =? 20 then
      <["consistency" := "Excellent alignment"]> details6
    else details6 in
  let consistency_ := Z.max consistency_score2 0 in
  (* Calculate total score *)
  let total_score :=
    title_optimization_ + attribute_completeness_ + semantic_richness_
    + structured_data_ + consistency_ in
  Ok (total_score,
      {| title_optimization := title_optimization_;
         attribute_completeness := attribute_completeness_;
         semantic_richness := semantic_richness_;
         structured_data := structured_data_;
         consistency := consistency_;
         details := details7 |}).

End Enrichment.

Import Enrichment.

(** ** [services/knowledge_graph.py] *)

Module KnowledgeGraph.

(** *** The tables behind the [sqlite3] connection *)

(** A row of [products]. *)
Record product_row : Type := {
  id_ : Z;
  sku : string;
  raw_title : string;
  raw_description : option string;
  category : option string;
  brand : option string;
  price : option Q
}.

(** A row of [enriched_products].  The JSON text columns are held as the
    value [json.loads] gives for them ([None] for a NULL or empty text). *)
Record enriched_row : Type := {
  product_id : Z;
  enriched_title : option string;
  long_description : option string;
  semantic_tags : option (list string);
  key_attributes : option (list (string * string))
}.

(** A row of [product_relationships]. *)
Record relationship_row : Type := {
  source_product_id : Z;
  target_product_id : Z;
  relationship_type : string;
  similarity_score : option Q;
  reasoning : option string
}.

Record tables : Type := {
  products : list product_row;
  enriched_products : list enriched_row;
  product_relationships : list relationship_row
}.

(** A connection: what is committed and what the open transaction sees.
    SQL leaves the row order of a query without [ORDER BY] open; the model
    takes the order of the lists, a row that [INSERT OR REPLACE] writes
    going last. *)
Record connection : Type := {
  committed : tables;
  current : tables
}.

Definition commit (conn : connection) : connection :=
  {| committed := current conn; current := current conn |}.

Definition rollback (conn : connection) : connection :=
  {| committed := committed conn; current := committed conn |}.

(** [FROM products p LEFT JOIN enriched_products e ON p.id = e.product_id],
    the rows of one product. *)
Definition left_join_enriched (t : tables) (p : product_row)
  : list (product_row * option enriched_row) :=
  match filter (fun e => product_id e = id_ p) (enriched_products t) with
  | [] => [(p, None)]
  | es => map (fun e => (p, Some e)) es
  end.

Definition products_left_join_enriched (t : tables)
  : list (product_row * option enriched_row) :=
  concat (map (left_join_enriched t) (products t)).

(** *** The [networkx.DiGraph] *)

(** A node is a product id or a ["category_..."] / ["brand_..."] string. *)
Abbreviation node_key := (Z + string)%type.
Abbreviation attrs := (gmap string pyval).

(** A [DiGraph] keeps one attribute dict per node and one per ordered pair
    of nodes. *)
Record digraph : Type := {
  nodes : gmap node_key attrs;
  edges : gmap (node_key * node_key) attrs
}.

Definition clear (g : digraph) : digraph :=
  {| nodes := ∅; edges := ∅ |}.

(** [g.add_node(n, **a)]: creates the node or updates its attributes. *)
Definition add_node (g : digraph) (n : node_key) (a : attrs) : digraph :=
  {| nodes := <[n := a ∪ default ∅ (nodes g !! n)]> (nodes g);
     edges := edges g |}.

(** [g.add_edge(u, v, **a)]: creates both end nodes when they are
    missing, then creates the edge or updates its attributes. *)
Definition add_edge (g : digraph) (u v : node_key) (a : attrs) : digraph :=
  let with_node (ns : gmap node_key attrs) (n : node_key) :=
    match ns !! n with
    | Some _ => ns
    | None => <[n := ∅]> ns
    end in
  {| nodes := with_node (with_node (nodes g) u) v;
     edges := <[(u, v) := a ∪ default ∅ (edges g !! (u, v))]> (edges g) |}.

Definition opt_str (o : option string) : pyval :=
  match o with
  | Some s => PStr s
  | None => PNone
  end.

Definition opt_float (o : option Q) : pyval :=
  match o with
  | Some q => PFloat q
  | None => PNone
  end.

(** The service object: [self.graph] and whether [self.client] is set. *)
Record service : Type := {
  graph : digraph;
  client : bool
}.

(** *** [build_graph_from_db] *)

Definition product_node_attrs (row : product_row * option enriched_row) : attrs :=
  let '(p, e) := row in
  <["node_type" := PStr "product"]>
  (<["sku" := PStr (sku p)]>
  (<["title" := PStr (str_or (e ≫= enriched_title) (raw_title p))]>
  (<["category" := opt_str (category p)]>
  (<["brand" := opt_str (brand p)]>
  (<["price" := opt_float (price p)]>
  (<["semantic_tags" := PList (map PStr (default [] (e ≫= semantic_tags)))]>
   ∅)))))).

Definition add_product_node (g : digraph) (row : product_row * option enriched_row)
  : digraph :=
  add_node g (inl (id_ row.1)) (product_node_attrs row).

Definition add_category_node (g : digraph) (c : string) : digraph :=
  if str_truthy c then
    add_node g (inr ("category_" +:+ c))
      (<["node_type" := PStr "category"]> (<["name" := PStr c]> ∅))
  else g.

Definition add_brand_node (g : digraph) (b : string) : digraph :=
  if str_truthy b then
    add_node g (inr ("brand_" +:+ b))
      (<["node_type" := PStr "brand"]> (<["name" := PStr b]> ∅))
  else g.

Definition relationship_attrs (r : relationship_row) : attrs :=
  <["relationship_type" := PStr (relationship_type r)]>
  (<["similarity_score" := opt_float (similarity_score r)]>
  (<["reasoning" := opt_str (reasoning r)]> ∅)).

Definition add_relationship_edge (g : digraph) (r : relationship_row) : digraph :=
  add_edge g (inl (source_product_id r)) (inl (target_product_id r))
    (relationship_attrs r).

Definition add_belongs_to (g : digraph) (p : product_row) : digraph :=
  match category p with
  | Some c =>
      if str_truthy c then
        add_edge g (inl (id_ p)) (inr ("category_" +:+ c))
          (<["relationship_type" := PStr "BELONGS_TO"]> ∅)
      else g
  | None => g
  end.

Definition add_made_by (g : digraph) (p : product_row) : digraph :=
  match brand p with
  | Some b =>
      if str_truthy b then
        add_edge g (inl (id_ p)) (inr ("brand_" +:+ b))
          (<["relationship_type" := PStr "MADE_BY"]> ∅)
      else g
  | None => g
  end.

(** The build, loop after loop in the order of the source. *)
Definition build_graph_from_db (self : service) (conn : connection) : service :=
  let t := current conn in
  let g0 := clear (graph self) in
  (* Add product nodes *)
  let g1 := fold_left add_product_node (products_left_join_enriched t) g0 in
  (* Add category nodes *)
  let g2 := fold_left add_category_node (remove_dups (omap category (products t))) g1 in
  (* Add brand nodes *)
  let g3 := fold_left add_brand_node (remove_dups (omap brand (products t))) g2 in
  (* Add product relationships *)
  let g4 := fold_left add_relationship_edge (product_relationships t) g3 in
  (* Add BELONGS_TO edges (Product -> Category) *)
  let g5 := fold_left add_belongs_to (products t) g4 in
  (* Add MADE_BY edges (Product -> Brand) *)
  let g6 := fold_left add_made_by (products t) g5 in
  {| graph := g6; client := client self |}.

(** *** [_store_relationship] *)

Definition same_triple (a b : relationship_row) : Prop :=
  source_product_id a = source_product_id b
  /\ target_product_id a = target_product_id b
  /\ relationship_type a = relationship_type b.

#[global] Instance same_triple_dec a b : Decision (same_triple a b).
Proof. unfold same_triple. apply _. Defined.

(** Modelled from the spec: [schema.sql] is not among the sources, so the
    uniqueness constraint of [product_relationships] that [INSERT OR
    REPLACE] resolves against is taken from the data model of the spec:
    one record per ordered (source, target, relationshipType) triple.  The
    conflicting row is deleted and the new row is appended. *)
Definition insert_or_replace (r : relationship_row) (tbl : list relationship_row)
  : list relationship_row :=
  filter (fun x => ~ same_triple x r) tbl ++ [r].

Definition _store_relationship (conn : connection) (source_id target_id : Z)
    (rel_type : string) (score : Q) (reasoning_ : string) : connection :=
  let t := current conn in
  let r := {| source_product_id := source_id;
              target_product_id := target_id;
              relationship_type := rel_type;
              similarity_score := Some score;
              reasoning := Some reasoning_ |} in
  {| committed := committed conn;
     current := {| products := products t;
                   enriched_products := enriched_products t;
                   product_relationships :=
                     insert_or_replace r (product_relationships t) |} |}.

(** *** [get_product_relationships] and [get_recommendations] *)

(** One entry of the list [get_product_relationships] returns. *)
Record relationship_view : Type := {
  v_product_id : Z;
  v_sku : string;
  v_title : string;
  v_category : option string;
  v_brand : option string;
  v_price : option Q;
  v_relationship_type : string;
  v_similarity_score : option Q;
  v_reasoning : option string
}.

Definition view_of (pr : relationship_row) (row : product_row * option enriched_row)
  : relationship_view :=
  let '(p, e) := row in
  {| v_product_id := target_product_id pr;
     v_sku := sku p;
     v_title := str_or (e ≫= enriched_title) (raw_title p);
     v_category := category p;
     v_brand := brand p;
     v_price := price p;
     v_relationship_type := relationship_type pr;
     v_similarity_score := similarity_score pr;
     v_reasoning := reasoning pr |}.

(** [FROM product_relationships pr JOIN products p ON pr.target_product_id
    = p.id LEFT JOIN enriched_products e ON p.id = e.product_id], the rows
    of one relationship record. *)
Definition join_target (t : tables) (pr : relationship_row)
  : list relationship_view :=
  map (view_of pr)
    (concat (map (left_join_enriched t)
               (filter (fun p => target_product_id pr = id_ p) (products t)))).

Definition get_product_relationships (self : service) (product_id_ : Z)
    (conn : connection) : list relationship_view :=
  let t := current conn in
  concat (map (join_target t)
            (filter (fun pr => source_product_id pr = product_id_)
               (product_relationships t))).

(** Insertion below every entry with a strictly greater key: entries with
    equal keys keep the order in which they are inserted from the right. *)
Fixpoint insert_desc {A : Type} (kx : Q) (x : A) (l : list (Q * A)) : list (Q * A) :=
  match l with
  | [] => [(kx, x)]
  | (ky, y) :: l' =>
      if float_lt kx ky then (ky, y) :: insert_desc kx x l'
      else (kx, x) :: (ky, y) :: l'
  end.

Definition sort_desc {A : Type} (l : list (Q * A)) : list (Q * A) :=
  foldr (fun kx => insert_desc kx.1 kx.2) [] l.

(** [sorted(l, key=key, reverse=True)]: the keys are computed first; the
    sort is stable and descending.  A list of two or more entries raises
    [TypeError] when one of the keys is [None], which [<] cannot compare. *)
Definition sorted_reverse {A : Type} (key : A -> option Q) (l : list A)
  : result (list A) :=
  match l with
  | [] | [_] => Ok l
  | _ =>
      match mapM (fun x => k ← key x; Some (k, x)) l with
      | Some kl => Ok (map snd (sort_desc kl))
      | None => Err TypeError
      end
  end.

Record recommendations : Type := {
  similar : list relationship_view;
  complements : list relationship_view;
  alternatives : list relationship_view
}.

Definition append_by_type (recs : recommendations) (rel : relationship_view)
  : recommendations :=
  if String.eqb (v_relationship_type rel) "SIMILAR_TO" then
    {| similar := similar recs ++ [rel];
       complements := complements recs;
       alternatives := alternatives recs |}
  else if String.eqb (v_relationship_type rel) "COMPLEMENTS" then
    {| similar := similar recs;
       complements := complements recs ++ [rel];
       alternatives := alternatives recs |}
  else if String.eqb (v_relationship_type rel) "ALTERNATIVE_TO" then
    {| similar := similar recs;
       complements := complements recs;
       alternatives := alternatives recs ++ [rel] |}
  else recs.

(** [limit] is [None] when the caller leaves the argument out. *)
Definition get_recommendations (self : service) (product_id_ : Z)
    (conn : connection) (limit : option Z) : result recommendations :=
  let limit := default 5 limit in
  let relationships := get_product_relationships self product_id_ conn in
  let recs :=
    fold_left append_by_type relationships
      {| similar := []; complements := []; alternatives := [] |} in
  (* Sort by similarity score and limit *)
  s <~ sorted_reverse v_similarity_score (similar recs) ;;
  c <~ sorted_reverse v_similarity_score (complements recs) ;;
  a <~ sorted_reverse v_similarity_score (alternatives recs) ;;
  Ok {| similar := slice_to s limit;
        complements := slice_to c limit;
        alternatives := slice_to a limit |}.

(** *** [analyze_product_relationships] and [batch_analyze_all_products] *)

(** The [source_product] dict of the prompt. *)
Record source_product : Type := {
  sp_id : Z;
  sp_sku : string;
  sp_title : string;
  sp_description : option string;
  sp_category : option string;
  sp_brand : option string;
  sp_price : option Q;
  sp_semantic_tags : list string;
  sp_attributes : list (string * string)
}.

(** One entry of [other_products]. *)
Record other_product : Type := {
  op_id : Z;
  op_sku : string;
  op_title : string;
  op_description : option string;
  op_category : option string;
  op_brand : option string;
  op_price : option Q;
  op_semantic_tags : list string
}.

(** One object of the JSON array the model answers with.  A field is
    [None] when the object lacks the key. *)
Record proposal : Type := {
  rel_target_product_id : option Z;
  rel_relationship_type : option string;
  rel_similarity_score : option Q;
  rel_reasoning : option string
}.

Definition source_product_of (row : product_row * option enriched_row)
  : source_product :=
  let '(p, e) := row in
  {| sp_id := id_ p;
     sp_sku := sku p;
     sp_title := str_or (e ≫= enriched_title) (raw_title p);
     sp_description := opt_or (e ≫= long_description) (raw_description p);
     sp_category := category p;
     sp_brand := brand p;
     sp_price := price p;
     sp_semantic_tags := default [] (e ≫= semantic_tags);
     sp_attributes := default [] (e ≫= key_attributes) |}.

Definition other_product_of (row : product_row * option enriched_row)
  : other_product :=
  let '(p, e) := row in
  {| op_id := id_ p;
     op_sku := sku p;
     op_title := str_or (e ≫= enriched_title) (raw_title p);
     op_description := e ≫= long_description;
     op_category := category p;
     op_brand := brand p;
     op_price := price p;
     op_semantic_tags := default [] (e ≫= semantic_tags) |}.

(** The progress dict handed to the callback. *)
Record progress : Type := {
  pg_product_id : Z;
  pg_processed : Z;
  pg_total : Z;
  pg_relationships_found : Z
}.

(** What a batch run does that the caller can observe: a call of the
    callback, or the line printed for a failed product. *)
Inductive event : Type :=
  | Progress (p : progress)
  | Printed (product_id_ : Z).

Record summary : Type := {
  total_products : Z;
  processed : Z;
  total_relationships : Z
}.

(** [ORDER BY p.id]. *)
Definition by_id (a b : product_row * option enriched_row) : Prop :=
  id_ a.1 <= id_ b.1.

#[global] Instance by_id_dec a b : Decision (by_id a b).
Proof. unfold by_id. apply _. Defined.

Section Discovery.

(** The text-generation service: [World] is whatever decides its answers;
    [propose] stands for [client.messages.create] followed by
    [json.loads] and gives the entries the loop runs over, with the field
    types of the docstring.  It fails when the call or the parse fails or
    when an entry is not a JSON object: the code then raises inside the
    [try], before or during the loop, and rolls back either way. *)
Variable World : Type.
Variable propose :
  World -> source_product -> list other_product -> World * result (list proposal).

(** The loop over [relationships] inside the [try]. *)
Fixpoint store_all (conn : connection) (source_id : Z) (relationships : list proposal)
  : result connection :=
  match relationships with
  | [] => Ok conn
  | rel :: rest =>
      target_id <~ getitem (rel_target_product_id rel) ;;
      rel_type <~ getitem (rel_relationship_type rel) ;;
      store_all
        (_store_relationship conn source_id target_id rel_type
           (default (1 # 2)%Q (rel_similarity_score rel))
           (default "" (rel_reasoning rel)))
        source_id rest
  end.

Definition analyze_product_relationships (self : service) (product_id_ : Z)
    (conn : connection) (w : World)
  : (service * connection * World) * result (list proposal) :=
  if negb (client self) then ((self, conn, w), Err ValueError)
  else
    let t := current conn in
    (* Get source product *)
    match filter (fun row => id_ row.1 = product_id_)
            (products_left_join_enriched t) with
    | [] => ((self, conn, w), Err ValueError)
    | source_row :: _ =>
        let source := source_product_of source_row in
        (* Get all other products *)
        let other_products :=
          map other_product_of
            (firstn 20
               (merge_sort by_id
                  (filter (fun row => id_ row.1 <> product_id_)
                     (products_left_join_enriched t)))) in
        (* Call Claude API *)
        let '(w', response) := propose w source other_products in
        match response with
        | Err _ => ((self, rollback conn, w'), Err Exception_)
        | Ok relationships =>
            (* Store relationships in database *)
            match store_all conn (sp_id source) relationships with
            | Err _ => ((self, rollback conn, w'), Err Exception_)
            | Ok conn1 =>
                let conn2 := commit conn1 in
                (* Rebuild graph to include new relationships *)
                let self' := build_graph_from_db self conn2 in
                ((self', conn2, w'), Ok relationships)
            end
        end
    end.

(** The variables of the batch loop. *)
Record batch_state : Type := {
  b_self : service;
  b_conn : connection;
  b_world : World;
  b_processed : Z;
  b_relationships_created : Z;
  b_events : list event
}.

(** One iteration of [for product_id in product_ids].  The callback is
    [None] when it is left out; it may itself raise. *)
Definition batch_iteration (total : Z)
    (progress_callback : option (progress -> result unit))
    (st : batch_state) (product_id_ : Z) : batch_state :=
  let '((self', conn', w'), r) :=
    analyze_product_relationships (b_self st) product_id_ (b_conn st) (b_world st) in
  match r with
  | Ok relationships =>
      let found := Z.of_nat (length relationships) in
      let relationships_created := b_relationships_created st + found in
      let processed1 := b_processed st + 1 in
      match progress_callback with
      | Some callback =>
          let payload := {| pg_product_id := product_id_;
                            pg_processed := processed1;
                            pg_total := total;
                            pg_relationships_found := found |} in
          match callback payload with
          | Ok _ =>
              {| b_self := self'; b_conn := conn'; b_world := w';
                 b_processed := processed1;
                 b_relationships_created := relationships_created;
                 b_events := b_events st ++ [Progress payload] |}
          | Err _ =>
              {| b_self := self'; b_conn := conn'; b_world := w';
                 b_processed := processed1 + 1;
                 b_relationships_created := relationships_created;
                 b_events := b_events st ++ [Progress payload; Printed product_id_] |}
          end
      | None =>
          {| b_self := self'; b_conn := conn'; b_world := w';
             b_processed := processed1;
             b_relationships_created := relationships_created;
             b_events := b_events st |}
      end
  | Err _ =>
      {| b_self := self'; b_conn := conn'; b_world := w';
         b_processed := b_processed st + 1;
         b_relationships_created := b_relationships_created st;
         b_events := b_events st ++ [Printed product_id_] |}
  end.

Definition batch_loop (total : Z)
    (progress_callback : option (progress -> result unit))
    (product_ids : list Z) (st : batch_state) : batch_state :=
  fold_left (batch_iteration total progress_callback) product_ids st.

Definition summary_of (total : Z) (st : batch_state) : summary :=
  {| total_products := total;
     processed := b_processed st;
     total_relationships := b_relationships_created st |}.

Definition batch_analyze_all_products (self : service) (conn : connection)
    (w : World) (progress_callback : option (progress -> result unit))
  : batch_state * summary :=
  let product_ids := map id_ (products (current conn)) in
  let total := Z.of_nat (length product_ids) in
  let st := batch_loop total progress_callback product_ids
              {| b_self := self; b_conn := conn; b_world := w;
                 b_processed := 0;
                 b_relationships_created := 0;
                 b_events := [] |} in
  (st, summary_of total st).

End Discovery.

Arguments b_self {World} _.
Arguments b_conn {World} _.
Arguments b_world {World} _.
Arguments b_processed {World} _.
Arguments b_relationships_created {World} _.
Arguments b_events {World} _.

End KnowledgeGraph.

Import KnowledgeGraph.

(** ** The rules of the scoring table, as the specification words them *)

Module Rules.

(** Length of the enriched title in characters: 45-60 gives 20; 40-44 or
    61-70 gives 15; any other non-empty title 10; the empty title 0. *)
Definition title_points (n : Z) : Z :=
  if decide (45 <= n <= 60) then 20
  else if decide (40 <= n <= 44 \/ 61 <= n <= 70) then 15
  else if decide (n <> 0) then 10
  else 0.

(** Count of key-attribute pairs: at least 7 gives 20; at least 5 gives
    15; at least 3 gives 10; anything else, zero included, 5. *)
Definition attribute_points (n : Z) : Z :=
  if decide (7 <= n) then 20
  else if decide (5 <= n) then 15
  else if decide (3 <= n) then 10
  else 5.

(** Description word count: 150-200 gives 10; 120-149 or 201-250 gives
    7; any other non-zero count 5; zero 0. *)
Definition description_points (w : Z) : Z :=
  if decide (150 <= w <= 200) then 10
  else if decide (120 <= w <= 149 \/ 201 <= w <= 250) then 7
  else if decide (w <> 0) then 5
  else 0.

(** FAQ count: at least 5 gives 10; at least 3 gives 7; more than 0
    gives 5; none 0. *)
Definition faq_points (n : Z) : Z :=
  if decide (5 <= n) then 10
  else if decide (3 <= n) then 7
  else if decide (0 < n) then 5
  else 0.

Definition structured_points (tag_count use_case_count : Z) : Z :=
  Z.min (tag_count * 2) 10 + Z.min (use_case_count * 3) 10.




(** The fields of the two dicts have the types the scoring code reads
    them at: a missing key counts as its default. *)
Record well_typed (enriched_data product_data : gmap string pyval)
    (title description raw_title_ brand_ category_ : string)
    (attr_count faq_count tag_count use_case_count : Z) : Prop := {
  wt_title : get enriched_data "enriched_title" (PStr "") = PStr title;
  wt_attributes : len (get enriched_data "key_attributes" (PList [])) = Ok attr_count;
  wt_description : get enriched_data "long_description" (PStr "") = PStr description;
  wt_faqs : len (get enriched_data "faqs" (PList [])) = Ok faq_count;
  wt_tags : len (get enriched_data "semantic_tags" (PList [])) = Ok tag_count;
  wt_use_cases : len (get enriched_data "use_cases" (PList [])) = Ok use_case_count;
  wt_raw_title : get product_data "raw_title" (PStr "") = PStr raw_title_;
  wt_brand : get product_data "brand" (PStr "") = PStr brand_;
  wt_category : get product_data "category" (PStr "") = PStr category_
}.

Definition word_count (description : string) : Z :=
  Z.of_nat (length (split_go description [])).

End Rules.

(** ** Concrete inputs *)

Module Samples.

Definition mouse_enriched : gmap string pyval :=
  <["enriched_title" := PStr "Acme Ergonomic Wireless Mouse for Professionals"]>
  (<["long_description" := PStr "An ergonomic wireless mouse for long days"]>
  (<["key_attributes" := PList [PNone; PNone; PNone; PNone; PNone; PNone]]>
  (<["faqs" := PList [PNone; PNone; PNone; PNone]]>
  (<["semantic_tags" := PList [PStr "a"; PStr "b"; PStr "c"; PStr "d"; PStr "e"]]>
  (<["use_cases" := PList [PStr "x"; PStr "y"; PStr "z"]]> ∅))))).

(** The product dict [get_score_breakdown] builds for a row whose [brand]
    and [category] columns are NULL. *)
Definition unbranded_product : gmap string pyval :=
  <["raw_title" := PStr "Acme Wireless Mouse"]>
  (<["brand" := PNone]> (<["category" := PNone]> ∅)).

Definition mouse_product : gmap string pyval :=
  <["raw_title" := PStr "Acme Wireless Mouse"]>
  (<["brand" := PStr "Acme"]> (<["category" := PStr "Mouse"]> ∅)).

(** An enrichment whose title came back as JSON [null]. *)
Definition null_title_enriched : gmap string pyval :=
  <["enriched_title" := PNone]> mouse_enriched.

Definition product (i : Z) (title : string) (c b : option string) : product_row :=
  {| id_ := i; sku := "SKU-" +:+ pretty i; raw_title := title;
     raw_description := None; category := c; brand := b; price := None |}.

Definition relationship (s t : Z) (ty : string) (score : option Q)
  : relationship_row :=
  {| source_product_id := s; target_product_id := t; relationship_type := ty;
     similarity_score := score; reasoning := Some "" |}.

Definition on_tables (t : tables) : connection :=
  {| committed := t; current := t |}.

Definition fresh_service : service :=
  {| graph := {| nodes := ∅; edges := ∅ |}; client := true |}.

(** Three products; the second has an enrichment whose title is the
    empty string. *)
Definition catalog : list product_row :=
  [product 1 "Acme Wireless Mouse" (Some "Mice") (Some "Acme");
   product 2 "Bolt Keyboard" (Some "") (Some "Bolt");
   product 3 "Mouse Pad" None None].

Definition untitled_enrichment : enriched_row :=
  {| product_id := 2; enriched_title := Some ""; long_description := None;
     semantic_tags := None; key_attributes := None |}.

(** A relationship record whose target 99 is no product. *)
Definition dangling_tables : tables :=
  {| products := catalog;
     enriched_products := [untitled_enrichment];
     product_relationships := [relationship 1 99 "SIMILAR_TO" (Some (4 # 5)%Q)] |}.

(** The catalog with an empty relationship table. *)
Definition catalog_tables : tables :=
  {| products := catalog;
     enriched_products := [untitled_enrichment];
     product_relationships := [] |}.

(** Product 1 is first found similar to product 2, then found to
    complement it. *)
Definition two_kinds : connection :=
  _store_relationship
    (_store_relationship (on_tables catalog_tables)
       1 2 "SIMILAR_TO" (9 # 10)%Q "same use")
    1 2 "COMPLEMENTS" (7 # 10)%Q "used together".

Definition proposed (t : Z) (ty : string) (score : Q) : proposal :=
  {| rel_target_product_id := Some t; rel_relationship_type := Some ty;
     rel_similarity_score := Some score; rel_reasoning := Some "" |}.

(** Six proposals: one more than five, one scored 0.4, one for the
    unknown product 99 and one of a type that is none of the three. *)
Definition noisy_answer : list proposal :=
  [proposed 2 "SIMILAR_TO" (9 # 10)%Q;
   proposed 3 "COMPLEMENTS" (4 # 5)%Q;
   proposed 2 "ALTERNATIVE_TO" (7 # 10)%Q;
   proposed 3 "SIMILAR_TO" (2 # 5)%Q;
   proposed 99 "SIMILAR_TO" (3 # 5)%Q;
   proposed 2 "RELATED" (3 # 5)%Q].

Definition noisy_provider (w : unit) (source : source_product)
    (others : list other_product) : unit * result (list proposal) :=
  (w, Ok noisy_answer).

(** A provider that is unavailable for product 2. *)
Definition flaky_provider (w : unit) (source : source_product)
    (others : list other_product) : unit * result (list proposal) :=
  (w, if sp_id source =? 2 then Err Exception_
      else Ok [proposed 2 "SIMILAR_TO" (9 # 10)%Q]).

Definition quiet_observer (p : progress) : result unit := Ok tt.

(** Product 1 has two similar products of one score, stored 3 before 2. *)
Definition tied_tables : tables :=
  {| products := catalog;
     enriched_products := [untitled_enrichment];
     product_relationships :=
       [relationship 1 3 "SIMILAR_TO" (Some (9 # 10)%Q);
        relationship 1 2 "SIMILAR_TO" (Some (9 # 10)%Q)] |}.


End Samples.

(** ** Scoring engine: proofs *)

Section ScoringProofs.

Import Rules.

Lemma let_pair {A B C : Type} (pr : A * B) (k : A -> B -> C) :
  (let '(a, b) := pr in k a b) = k pr.1 pr.2.
Proof. destruct pr; reflexivity. Qed.

Lemma fst_if {A B : Type} (c : bool) (x y : A * B) :
  (if c then x else y).1 = if c then x.1 else y.1.
Proof. destruct c; reflexivity. Qed.

Lemma title_rule (n : Z) (d1 d2 d3 d4 : gmap string string) :
  0 <= n ->
  (if (45 <=? n) && (n <=? 60) then (20, d1)
   else if ((40 <=? n) && (n <? 45)) || ((60 <? n) && (n <=? 70)) then (15, d2)
   else if 0 <? n then (10, d3) else (0, d4)).1 = title_points n.
Proof.
  intros Hn. unfold title_points.
  repeat case_decide;
    repeat (match goal with
            | |- context [if ?c then _ else _] => destruct c eqn:?
            end; simpl); try reflexivity; lia.
Qed.

Lemma attribute_rule (n : Z) (d1 d2 d3 d4 : gmap string string) :
  (if 7 <=? n then (20, d1)
   else if 5 <=? n then (15, d2)
   else if 3 <=? n then (10, d3) else (5, d4)).1 = attribute_points n.
Proof.
  unfold attribute_points.
  repeat case_decide;
    repeat (match goal with
            | |- context [if ?c then _ else _] => destruct c eqn:?
            end; simpl); try reflexivity; lia.
Qed.

Lemma description_rule (w : Z) :
  0 <= w ->
  (if (150 <=? w) && (w <=? 200) then 10
   else if ((120 <=? w) && (w <? 150)) || ((200 <? w) && (w <=? 250)) then 7
   else if 0 <? w then 5 else 0) = description_points w.
Proof.
  intros Hw. unfold description_points.
  repeat case_decide;
    repeat (match goal with
            | |- context [if ?c then _ else _] => destruct c eqn:?
            end; simpl); try reflexivity; lia.
Qed.

Lemma faq_rule (n : Z) :
  (if 5 <=? n then 10 else if 3 <=? n then 7 else if 0 <? n then 5 else 0)
  = faq_points n.
Proof.
  unfold faq_points.
  repeat case_decide;
    repeat (match goal with
            | |- context [if ?c then _ else _] => destruct c eqn:?
            end; simpl); try reflexivity; lia.
Qed.

Lemma bind_ok {A B : Type} (a : A) (k : A -> result B) : bind (Ok a) k = k a.
Proof. reflexivity. Qed.

(** The two tests of the consistency block, on the raw strings. *)
Definition brand_test (b t rt : string) : bool :=
  str_truthy (lower_str b) && negb (str_in (lower_str b) (lower_str t))
  && str_in (lower_str b) (lower_str rt).

Definition category_test (c d : string) : bool :=
  str_truthy (lower_str c) && negb (str_in (lower_str c) (lower_str d)).

Lemma calculate_well_typed e p t d rt b c na nf nt nu :
  well_typed e p t d rt b c na nf nt nu ->
  exists total bd,
    calculate_aeo_score e p = Ok (total, bd)
    /\ title_optimization bd = title_points (Z.of_nat (str_len t))
    /\ attribute_completeness bd = attribute_points na
    /\ semantic_richness bd = description_points (word_count d) + faq_points nf
    /\ structured_data bd = structured_points nt nu
    /\ consistency bd =
         Z.max (20 - (if brand_test b t rt then 5 else 0)
                   - (if category_test c d then 5 else 0)) 0
    /\ total = title_optimization bd + attribute_completeness bd
               + semantic_richness bd + structured_data bd + consistency bd.
Proof.
  intros [Ht Ha Hd Hf Hg Hu Hr Hb Hc].
  unfold calculate_aeo_score.
  rewrite Ht, Ha, Hd, Hf, Hg, Hu, Hr, Hb, Hc.
  unfold len at 1. rewrite bind_ok.
  rewrite let_pair. rewrite bind_ok. rewrite let_pair.
  unfold split, lower. rewrite !bind_ok.
  rewrite let_pair.
  assert (Hcat : (if str_truthy (lower_str c)
                  then Ok (negb (str_in (lower_str c) (lower_str d)))
                  else Ok false) = Ok (category_test c d)).
  { unfold category_test. destruct (str_truthy (lower_str c)); reflexivity. }
  rewrite !bind_ok, Hcat, bind_ok, let_pair.
  fold (brand_test b t rt).
  do 2 eexists. split; [reflexivity|]. cbn [title_optimization
    attribute_completeness semantic_richness structured_data consistency].
  split; [apply title_rule; lia|].
  split; [apply attribute_rule|].
  split; [rewrite description_rule, faq_rule by lia; reflexivity|].
  split; [reflexivity|].
  split; [|reflexivity].
  rewrite !fst_if. cbn [fst].
  destruct (brand_test b t rt), (category_test c d); reflexivity.
Qed.

Lemma append_nil (s : string) : "" +:+ s = s.
Proof. reflexivity. Qed.

Lemma append_cons (c : ascii) (s t : string) :
  String c s +:+ t = String c (s +:+ t).
Proof. reflexivity. Qed.









Lemma bind_inv {A B : Type} (m : result A) (k : A -> result B) (b : B) :
  bind m k = Ok b -> exists a, m = Ok a /\ k a = Ok b.
Proof. destruct m as [a|e]; simpl; [eauto | discriminate]. Qed.

Lemma lower_inv (v : pyval) (s : string) :
  lower v = Ok s -> exists t, v = PStr t.
Proof. destruct v; simpl; try discriminate. eauto. Qed.

Lemma split_inv (v : pyval) (ws : list string) :
  split v = Ok ws -> exists t, v = PStr t.
Proof. destruct v; simpl; try discriminate. eauto. Qed.

(** The scorer returns only on inputs whose fields have the types it
    reads them at; on every other input it raises. *)
Lemma calculate_returns_only_well_typed e p total bd :
  calculate_aeo_score e p = Ok (total, bd) ->
  exists t d rt b c na nf nt nu, well_typed e p t d rt b c na nf nt nu.
Proof.
  unfold calculate_aeo_score. intros H.
  apply bind_inv in H as (tl & Htl & H). rewrite let_pair in H.
  apply bind_inv in H as (na & Hna & H). rewrite let_pair in H.
  apply bind_inv in H as (ws & Hws & H).
  apply bind_inv in H as (nf & Hnf & H).
  apply bind_inv in H as (nt & Hnt & H).
  apply bind_inv in H as (nu & Hnu & H).
  apply bind_inv in H as (rt' & Hrt & H).
  apply bind_inv in H as (t' & Ht & H).
  apply bind_inv in H as (b' & Hb & H). rewrite let_pair in H.
  apply bind_inv in H as (c' & Hc & _).
  apply lower_inv in Hrt as [rt Hrt], Ht as [t Ht], Hb as [b Hb], Hc as [c Hc].
  apply split_inv in Hws as [d Hd].
  exists t, d, rt, b, c, na, nf, nt, nu. constructor; assumption.
Qed.

Lemma dimension_bounds (n w f g u : Z) :
  title_points n <= 20 /\ attribute_points n <= 20
  /\ description_points w + faq_points f <= 20
  /\ structured_points g u <= 20.
Proof.
  unfold title_points, attribute_points, description_points, faq_points,
    structured_points.
  repeat case_decide; lia.
Qed.

Lemma well_typed_mouse :
  well_typed Samples.mouse_enriched Samples.mouse_product
    "Acme Ergonomic Wireless Mouse for Professionals"
    "An ergonomic wireless mouse for long days"
    "Acme Wireless Mouse" "Acme" "Mouse" 6 4 5 3.
Proof. constructor; vm_compute; reflexivity. Qed.

(** C1 (violated by the code): scoring the enrichment of a product whose
    [brand] and [category] are null, the dict [get_score_breakdown]
    builds from a row with NULL columns, raises [AttributeError] on
    [None.lower()]; an enrichment whose title is null raises [TypeError]
    on [len(None)].  The defaults of [dict.get] cover missing keys only. *)
Theorem C1_null_field_raises :
  calculate_aeo_score Samples.mouse_enriched Samples.unbranded_product
    = Err AttributeError
  /\ calculate_aeo_score Samples.null_title_enriched Samples.mouse_product
    = Err TypeError.
Proof. split; vm_compute; reflexivity. Qed.





End ScoringProofs.

(** ** Graph build: proofs *)

Section GraphProofs.

Lemma fold_left_inv {A B : Type} (f : A -> B -> A) (P : A -> Prop)
    (l : list B) (a : A) :
  P a -> (forall a x, x ∈ l -> P a -> P (f a x)) -> P (fold_left f l a).
Proof.
  revert a. induction l as [|y l IH]; simpl; intros a Ha Hstep; [exact Ha|].
  apply IH.
  - apply Hstep; [left | exact Ha].
  - intros a' x Hx. apply Hstep. right. exact Hx.
Qed.

Lemma fold_left_reach {A B : Type} (f : A -> B -> A) (P Q : A -> Prop)
    (l : list B) (a : A) (x : B) :
  x ∈ l -> P a ->
  (forall a y, y ∈ l -> P a -> P (f a y)) ->
  (forall a, P a -> Q (f a x)) ->
  (forall a y, y ∈ l -> Q a -> Q (f a y)) ->
  Q (fold_left f l a).
Proof.
  revert a. induction l as [|y l IH]; simpl; intros a Hx Ha HP Hset Hkeep.
  - inversion Hx.
  - apply elem_of_cons in Hx as [<-|Hx].
    + apply fold_left_inv; [apply Hset; exact Ha|].
      intros a' z Hz. apply Hkeep. right. exact Hz.
    + apply IH; [exact Hx | apply HP; [left | exact Ha] | | exact Hset |].
      * intros a' z Hz. apply HP. right. exact Hz.
      * intros a' z Hz. apply Hkeep. right. exact Hz.
Qed.

Lemma add_node_edges g n a : edges (add_node g n a) = edges g.
Proof. reflexivity. Qed.

Lemma add_node_lookup g n a m :
  nodes (add_node g n a) !! m =
  if decide (n = m) then Some (a ∪ default ∅ (nodes g !! n)) else nodes g !! m.
Proof. unfold add_node; simpl. apply lookup_insert. Qed.

Lemma add_edge_edges g u v a k :
  edges (add_edge g u v a) !! k =
  if decide ((u, v) = k) then Some (a ∪ default ∅ (edges g !! (u, v)))
  else edges g !! k.
Proof. unfold add_edge; simpl. apply lookup_insert. Qed.

Lemma with_node_lookup (ns : gmap node_key attrs) (n m : node_key) :
  (match ns !! n with Some _ => ns | None => <[n := ∅]> ns end) !! m =
  match ns !! m with
  | Some x => Some x
  | None => if decide (n = m) then Some ∅ else None
  end.
Proof.
  destruct (ns !! n) as [xn|] eqn:Hn.
  - destruct (ns !! m) as [xm|] eqn:Hm; [reflexivity|].
    case_decide; [congruence | reflexivity].
  - rewrite lookup_insert. case_decide as Hd.
    + subst. rewrite Hn. reflexivity.
    + destruct (ns !! m); reflexivity.
Qed.

Lemma add_edge_nodes g u v a n :
  nodes (add_edge g u v a) !! n =
  match nodes g !! n with
  | Some x => Some x
  | None => if decide (u = n \/ v = n) then Some ∅ else None
  end.
Proof.
  unfold add_edge; cbn [nodes]. rewrite !with_node_lookup.
  destruct (nodes g !! n) as [x|]; [reflexivity|].
  repeat case_decide; try reflexivity; exfalso; tauto.
Qed.

(** **** Edges through the loops of the build *)

Lemma product_nodes_edges rows g :
  edges (fold_left add_product_node rows g) = edges g.
Proof. apply fold_left_inv; [reflexivity|]. intros g' x _ H. exact H. Qed.

Lemma category_nodes_edges cs g :
  edges (fold_left add_category_node cs g) = edges g.
Proof.
  apply fold_left_inv; [reflexivity|]. intros g' c _ H.
  unfold add_category_node. destruct (str_truthy c); exact H.
Qed.

Lemma brand_nodes_edges bs g :
  edges (fold_left add_brand_node bs g) = edges g.
Proof.
  apply fold_left_inv; [reflexivity|]. intros g' c _ H.
  unfold add_brand_node. destruct (str_truthy c); exact H.
Qed.

Lemma relationship_attrs_union (r : relationship_row) (old : attrs) :
  (relationship_attrs r ∪ old) !! "relationship_type"
    = Some (PStr (relationship_type r))
  /\ (relationship_attrs r ∪ old) !! "similarity_score"
    = Some (opt_float (similarity_score r))
  /\ (relationship_attrs r ∪ old) !! "reasoning"
    = Some (opt_str (reasoning r)).
Proof.
  repeat split; apply lookup_union_Some_l; reflexivity.
Qed.

(** The pair of end nodes of a persisted relationship. *)
Definition pair_of (r : relationship_row) : node_key * node_key :=
  (inl (source_product_id r), inl (target_product_id r)).

(** The attributes [a] are the ones of the record [r]. *)
Definition carries (a : attrs) (r : relationship_row) : Prop :=
  a !! "relationship_type" = Some (PStr (relationship_type r))
  /\ a !! "similarity_score" = Some (opt_float (similarity_score r))
  /\ a !! "reasoning" = Some (opt_str (reasoning r)).

Lemma relationship_edges_last l1 r l2 g :
  (forall r', r' ∈ l2 -> pair_of r' <> pair_of r) ->
  exists a,
    edges (fold_left add_relationship_edge (l1 ++ r :: l2) g) !! pair_of r = Some a
    /\ carries a r.
Proof.
  intros Hlast. rewrite fold_left_app. simpl.
  set (g1 := fold_left add_relationship_edge l1 g).
  exists (relationship_attrs r ∪ default ∅ (edges g1 !! pair_of r)).
  split; [|apply relationship_attrs_union].
  apply fold_left_inv.
  - unfold add_relationship_edge. rewrite add_edge_edges.
    rewrite decide_True by reflexivity. reflexivity.
  - intros g' r' Hr' H. unfold add_relationship_edge.
    rewrite add_edge_edges. rewrite decide_False; [exact H|].
    apply Hlast. exact Hr'.
Qed.

Lemma relationship_edges_to_name rels g u x :
  edges (fold_left add_relationship_edge rels g) !! (u, inr x)
  = edges g !! (u, inr x).
Proof.
  apply fold_left_inv; [reflexivity|]. intros g' r _ H.
  unfold add_relationship_edge. rewrite add_edge_edges.
  rewrite decide_False by congruence. exact H.
Qed.

Lemma belongs_to_edges_to_product ps g u t :
  edges (fold_left add_belongs_to ps g) !! (u, inl t) = edges g !! (u, inl t).
Proof.
  apply fold_left_inv; [reflexivity|]. intros g' q _ H.
  unfold add_belongs_to. destruct (category q) as [c|]; [|exact H].
  destruct (str_truthy c); [|exact H].
  rewrite add_edge_edges. rewrite decide_False by congruence. exact H.
Qed.

Lemma made_by_edges_to_product ps g u t :
  edges (fold_left add_made_by ps g) !! (u, inl t) = edges g !! (u, inl t).
Proof.
  apply fold_left_inv; [reflexivity|]. intros g' q _ H.
  unfold add_made_by. destruct (brand q) as [c|]; [|exact H].
  destruct (str_truthy c); [|exact H].
  rewrite add_edge_edges. rewrite decide_False by congruence. exact H.
Qed.

(** In the built graph the edge of an ordered pair of products carries
    the attributes of the last persisted record for that pair. *)
Lemma build_edge_last self conn l1 r l2 :
  product_relationships (current conn) = l1 ++ r :: l2 ->
  (forall r', r' ∈ l2 -> pair_of r' <> pair_of r) ->
  exists a,
    edges (graph (build_graph_from_db self conn)) !! pair_of r = Some a
    /\ carries a r.
Proof.
  intros Hrels Hlast. unfold build_graph_from_db. cbn [graph].
  unfold pair_of at 1.
  rewrite made_by_edges_to_product, belongs_to_edges_to_product, Hrels.
  apply relationship_edges_last. exact Hlast.
Qed.

Lemma build_edge_exists self conn r :
  r ∈ product_relationships (current conn) ->
  is_Some (edges (graph (build_graph_from_db self conn)) !! pair_of r).
Proof.
  intros Hr. unfold build_graph_from_db. cbn [graph]. unfold pair_of.
  rewrite made_by_edges_to_product, belongs_to_edges_to_product.
  apply (fold_left_reach add_relationship_edge (fun _ => True)
           (fun g' => is_Some (edges g' !! pair_of r)) _ _ r); auto.
  - intros g' _. unfold add_relationship_edge. rewrite add_edge_edges.
    rewrite decide_True by reflexivity. eauto.
  - intros g' r' _ H. unfold add_relationship_edge. rewrite add_edge_edges.
    case_decide; [eauto | exact H].
Qed.

(** **** The rows of the left join *)

Lemma left_join_row t p row :
  row ∈ left_join_enriched t p ->
  row.1 = p
  /\ (row.2 = None
      \/ exists e, row.2 = Some e /\ e ∈ enriched_products t
                   /\ product_id e = id_ p).
Proof.
  unfold left_join_enriched.
  destruct (filter _ (enriched_products t)) as [|e0 es] eqn:Hf.
  - intros H. apply list_elem_of_singleton in H as ->. auto.
  - intros H. apply list_elem_of_In, in_map_iff in H as (e & <- & He).
    split; [reflexivity|]. right. exists e. split; [reflexivity|].
    apply list_elem_of_In in He. rewrite <- Hf in He.
    apply list_elem_of_filter in He as [? ?]. auto.
Qed.

Lemma left_join_nonempty t p : exists e, (p, e) ∈ left_join_enriched t p.
Proof.
  unfold left_join_enriched.
  destruct (filter _ (enriched_products t)) as [|e0 es].
  - exists None. left.
  - exists (Some e0). left.
Qed.

Lemma joined_row t row :
  row ∈ products_left_join_enriched t ->
  row.1 ∈ products t
  /\ (row.2 = None
      \/ exists e, row.2 = Some e /\ e ∈ enriched_products t
                   /\ product_id e = id_ row.1).
Proof.
  unfold products_left_join_enriched. intros H.
  apply list_elem_of_In, in_concat in H as (rows & Hrows & Hrow).
  apply in_map_iff in Hrows as (p & <- & Hp).
  apply list_elem_of_In in Hp, Hrow.
  apply left_join_row in Hrow as [Hp1 Hrest]. rewrite Hp1. auto.
Qed.

Lemma joined_nonempty t p :
  p ∈ products t -> exists e, (p, e) ∈ products_left_join_enriched t.
Proof.
  intros Hp. destruct (left_join_nonempty t p) as [e He]. exists e.
  unfold products_left_join_enriched.
  apply list_elem_of_In, in_concat. exists (left_join_enriched t p).
  split; [apply in_map; apply list_elem_of_In; exact Hp|].
  apply list_elem_of_In. exact He.
Qed.

Lemma unique_id (ps : list product_row) (p q : product_row) :
  NoDup (map id_ ps) -> p ∈ ps -> q ∈ ps -> id_ p = id_ q -> p = q.
Proof.
  induction ps as [|x ps IH]; simpl; intros Hnd Hp Hq Hid.
  - inversion Hp.
  - apply NoDup_cons in Hnd as [Hx Hnd].
    apply elem_of_cons in Hp as [->|Hp]; apply elem_of_cons in Hq as [->|Hq].
    + reflexivity.
    + exfalso. apply Hx. rewrite Hid.
      apply list_elem_of_In, in_map, list_elem_of_In. exact Hq.
    + exfalso. apply Hx. rewrite <- Hid.
      apply list_elem_of_In, in_map, list_elem_of_In. exact Hp.
    + apply IH; assumption.
Qed.

(** **** Nodes through the loops of the build *)

Lemma category_nodes_product cs g (i : Z) :
  nodes (fold_left add_category_node cs g) !! inl i = nodes g !! inl i.
Proof.
  apply fold_left_inv; [reflexivity|]. intros g' c _ H.
  unfold add_category_node. destruct (str_truthy c); [|exact H].
  rewrite add_node_lookup. rewrite decide_False by discriminate. exact H.
Qed.

Lemma brand_nodes_product bs g (i : Z) :
  nodes (fold_left add_brand_node bs g) !! inl i = nodes g !! inl i.
Proof.
  apply fold_left_inv; [reflexivity|]. intros g' c _ H.
  unfold add_brand_node. destruct (str_truthy c); [|exact H].
  rewrite add_node_lookup. rewrite decide_False by discriminate. exact H.
Qed.

Lemma add_edge_keeps_node g u v a n x :
  nodes g !! n = Some x -> nodes (add_edge g u v a) !! n = Some x.
Proof. intros H. rewrite add_edge_nodes, H. reflexivity. Qed.

Lemma relationship_edges_keep_node rels g n x :
  nodes g !! n = Some x ->
  nodes (fold_left add_relationship_edge rels g) !! n = Some x.
Proof.
  intros H. apply fold_left_inv; [exact H|]. intros g' r _ H'.
  apply add_edge_keeps_node. exact H'.
Qed.

Lemma belongs_to_keeps_node ps g n x :
  nodes g !! n = Some x -> nodes (fold_left add_belongs_to ps g) !! n = Some x.
Proof.
  intros H. apply fold_left_inv; [exact H|]. intros g' q _ H'.
  unfold add_belongs_to. destruct (category q) as [c|]; [|exact H'].
  destruct (str_truthy c); [|exact H']. apply add_edge_keeps_node. exact H'.
Qed.

Lemma made_by_keeps_node ps g n x :
  nodes g !! n = Some x -> nodes (fold_left add_made_by ps g) !! n = Some x.
Proof.
  intros H. apply fold_left_inv; [exact H|]. intros g' q _ H'.
  unfold add_made_by. destruct (brand q) as [c|]; [|exact H'].
  destruct (str_truthy c); [|exact H']. apply add_edge_keeps_node. exact H'.
Qed.

(** A node that exists once the persisted relationships are in keeps its
    attributes to the end of the build. *)
Lemma build_keeps_node self conn n x :
  let t := current conn in
  nodes (fold_left add_relationship_edge (product_relationships t)
           (fold_left add_brand_node (remove_dups (omap brand (products t)))
              (fold_left add_category_node
                 (remove_dups (omap category (products t)))
                 (fold_left add_product_node (products_left_join_enriched t)
                    (clear (graph self)))))) !! n = Some x ->
  nodes (graph (build_graph_from_db self conn)) !! n = Some x.
Proof.
  intros t H. unfold build_graph_from_db. cbn [graph].
  apply made_by_keeps_node, belongs_to_keeps_node. exact H.
Qed.

Lemma product_nodes_other rows g (i : Z) :
  (forall row, row ∈ rows -> id_ row.1 <> i) ->
  nodes (fold_left add_product_node rows g) !! inl i = nodes g !! inl i.
Proof.
  intros Hne. apply fold_left_inv; [reflexivity|]. intros g' row Hrow H.
  unfold add_product_node. rewrite add_node_lookup.
  rewrite decide_False; [exact H|]. intros Heq. injection Heq as Heq.
  exact (Hne row Hrow Heq).
Qed.

(** A persisted relationship whose target is no product leaves, in the
    built graph, a node for the target that has no attribute. *)
Lemma build_dangling_node self conn r :
  r ∈ product_relationships (current conn) ->
  target_product_id r ∉ map id_ (products (current conn)) ->
  nodes (graph (build_graph_from_db self conn)) !! inl (target_product_id r)
  = Some ∅.
Proof.
  intros Hr Hdangling. apply build_keeps_node. cbv zeta.
  set (g3 := fold_left add_brand_node _ _).
  assert (H3 : nodes g3 !! inl (target_product_id r) = None).
  { unfold g3. rewrite brand_nodes_product, category_nodes_product.
    rewrite product_nodes_other; [reflexivity|].
    intros row Hrow Hid. apply Hdangling. rewrite <- Hid.
    apply joined_row in Hrow as [Hp _].
    apply list_elem_of_In, in_map, list_elem_of_In. exact Hp. }
  apply (fold_left_reach add_relationship_edge
           (fun g => nodes g !! inl (target_product_id r) = None
                     \/ nodes g !! inl (target_product_id r) = Some ∅)
           (fun g => nodes g !! inl (target_product_id r) = Some ∅) _ _ r);
    auto.
  - intros g r' _ [H|H]; unfold add_relationship_edge; rewrite add_edge_nodes, H;
      [case_decide; auto | auto].
  - intros g [H|H]; unfold add_relationship_edge; rewrite add_edge_nodes, H;
      [rewrite decide_True by auto; reflexivity | reflexivity].
  - intros g r' _ H. apply add_edge_keeps_node. exact H.
Qed.

(** C7, the claim as stated fails: with one persisted record from
    product 1 to the unknown id 99, the built graph has a node 99, without
    attributes, and an edge from 1 to 99. *)
Lemma C7_dangling_target_counterexample :
  let g := graph (build_graph_from_db Samples.fresh_service
                    (Samples.on_tables Samples.dangling_tables)) in
  (99 ∉ map id_ (products Samples.dangling_tables))
  /\ nodes g !! inl 99 = Some ∅
  /\ (edges g !! (inl 1, inl 99)) ≫= (fun a => a !! "relationship_type")
     = Some (PStr "SIMILAR_TO").
Proof.
  cbv zeta. split; [|split; vm_compute; reflexivity].
  intros H. apply list_elem_of_In in H. simpl in H.
  repeat destruct H as [H|H]; try discriminate H. exact H.
Qed.

(** C7 as amended: the build always returns a graph, and a persisted
    record whose target id is no known product is not skipped: the target
    becomes a node without attributes and the edge to it is in the graph. *)
Theorem C7_dangling_target_kept self conn r :
  r ∈ product_relationships (current conn) ->
  target_product_id r ∉ map id_ (products (current conn)) ->
  let g := graph (build_graph_from_db self conn) in
  nodes g !! inl (target_product_id r) = Some ∅
  /\ is_Some (edges g !! (inl (source_product_id r), inl (target_product_id r))).
Proof.
  intros Hr Hdangling. split.
  - apply build_dangling_node; assumption.
  - apply (build_edge_exists self conn r Hr).
Qed.

Lemma C7_dangling_target_kept_witness :
  let g := graph (build_graph_from_db Samples.fresh_service
                    (Samples.on_tables Samples.dangling_tables)) in
  nodes g !! inl 99 = Some ∅ /\ is_Some (edges g !! (inl 1, inl 99)).
Proof.
  apply (C7_dangling_target_kept Samples.fresh_service
           (Samples.on_tables Samples.dangling_tables)
           (Samples.relationship 1 99 "SIMILAR_TO" (Some (4 # 5)%Q))).
  - left.
  - intros H. apply list_elem_of_In in H. simpl in H.
    repeat destruct H as [H|H]; try discriminate H. exact H.
Defined.

(** **** The display title *)

(** The enriched title of the joined row is absent or empty. *)
Definition blank_title (e : option enriched_row) : Prop :=
  e ≫= enriched_title = None \/ e ≫= enriched_title = Some "".

(** Every enrichment row of product [p] has an absent or empty title. *)
Definition untitled (t : tables) (p : product_row) : Prop :=
  forall e, e ∈ enriched_products t -> product_id e = id_ p ->
            enriched_title e = None \/ enriched_title e = Some "".

Lemma str_or_blank e raw : blank_title e -> str_or (e ≫= enriched_title) raw = raw.
Proof. intros [H|H]; rewrite H; reflexivity. Qed.

Lemma joined_blank t p row :
  untitled t p -> row ∈ left_join_enriched t p -> blank_title row.2.
Proof.
  intros Hu Hrow. apply left_join_row in Hrow as [_ [H|(e & H & He & Hid)]];
    rewrite H; [left; reflexivity|].
  unfold blank_title. simpl. apply Hu; assumption.
Qed.

Lemma product_title_attr row :
  product_node_attrs row !! "title"
  = Some (PStr (str_or (row.2 ≫= enriched_title) (raw_title row.1))).
Proof. destruct row as [p e]. reflexivity. Qed.

Lemma build_product_title self conn p :
  let t := current conn in
  p ∈ products t -> NoDup (map id_ (products t)) -> untitled t p ->
  exists a,
    nodes (graph (build_graph_from_db self conn)) !! inl (id_ p) = Some a
    /\ a !! "title" = Some (PStr (raw_title p)).
Proof.
  intros t Hp Hnd Hu.
  assert (Hrow : forall row, row ∈ products_left_join_enriched t ->
                 id_ row.1 = id_ p ->
                 product_node_attrs row !! "title" = Some (PStr (raw_title p))).
  { intros row Hrow Hid. rewrite product_title_attr.
    unfold products_left_join_enriched in Hrow.
    apply list_elem_of_In, in_concat in Hrow as (rows & Hrows & Hrow).
    apply in_map_iff in Hrows as (q & <- & Hq).
    apply list_elem_of_In in Hq, Hrow.
    pose proof (left_join_row _ _ _ Hrow) as [H1 _]. rewrite H1 in Hid |- *.
    assert (q = p) as -> by (eapply unique_id; eauto).
    rewrite str_or_blank; [reflexivity|]. eapply joined_blank; eauto. }
  destruct (joined_nonempty t p Hp) as [e0 He0].
  assert (H1 : exists a,
             nodes (fold_left add_product_node (products_left_join_enriched t)
                      (clear (graph self))) !! inl (id_ p) = Some a
             /\ a !! "title" = Some (PStr (raw_title p))).
  { apply (fold_left_reach add_product_node (fun _ => True)
             (fun g => exists a, nodes g !! inl (id_ p) = Some a
                       /\ a !! "title" = Some (PStr (raw_title p)))
             _ _ (p, e0)); auto.
    - intros g _. unfold add_product_node. rewrite add_node_lookup.
      rewrite decide_True by reflexivity. eexists. split; [reflexivity|].
      apply lookup_union_Some_l. apply Hrow; [exact He0 | reflexivity].
    - intros g row Hr (a & Ha & Hta). unfold add_product_node.
      rewrite add_node_lookup. case_decide as Hd; [|eauto].
      eexists. split; [reflexivity|]. apply lookup_union_Some_l.
      apply Hrow; [exact Hr | congruence]. }
  destruct H1 as (a & Ha & Hta). exists a. split; [|exact Hta].
  apply build_keeps_node. cbv zeta. apply relationship_edges_keep_node.
  rewrite brand_nodes_product, category_nodes_product. exact Ha.
Qed.

Lemma relationship_view_source self conn pid v :
  v ∈ get_product_relationships self pid conn ->
  exists pr p row,
    pr ∈ product_relationships (current conn)
    /\ source_product_id pr = pid
    /\ p ∈ products (current conn)
    /\ target_product_id pr = id_ p
    /\ row ∈ left_join_enriched (current conn) p
    /\ v = view_of pr row.
Proof.
  unfold get_product_relationships. intros H.
  apply list_elem_of_In, in_concat in H as (vs & Hvs & Hv).
  apply in_map_iff in Hvs as (pr & <- & Hpr).
  apply list_elem_of_In, list_elem_of_filter in Hpr as [Hsrc Hpr].
  unfold join_target in Hv.
  apply in_map_iff in Hv as (row & <- & Hrow).
  apply in_concat in Hrow as (rows & Hrows & Hrow).
  apply in_map_iff in Hrows as (p & <- & Hp).
  apply list_elem_of_In, list_elem_of_filter in Hp as [Htgt Hp].
  exists pr, p, row. apply list_elem_of_In in Hrow. auto 10.
Qed.

Lemma relationship_view_complete self conn pr p :
  pr ∈ product_relationships (current conn) ->
  p ∈ products (current conn) ->
  target_product_id pr = id_ p ->
  exists row,
    row ∈ left_join_enriched (current conn) p
    /\ view_of pr row
       ∈ get_product_relationships self (source_product_id pr) conn.
Proof.
  intros Hpr Hp Htgt.
  destruct (left_join_nonempty (current conn) p) as [e He].
  exists (p, e). split; [exact He|].
  unfold get_product_relationships.
  apply list_elem_of_In, in_concat. exists (join_target (current conn) pr).
  split.
  - apply in_map, list_elem_of_In, list_elem_of_filter. auto.
  - unfold join_target. apply in_map, in_concat.
    exists (left_join_enriched (current conn) p). split.
    + apply in_map, list_elem_of_In, list_elem_of_filter. auto.
    + apply list_elem_of_In. exact He.
Qed.

(** C10: a product all of whose enrichment rows have an absent or an
    empty title is shown under its raw title, as a node of the built
    graph, as the target of a relationship view and in the product dicts
    of the discovery prompt: the empty enriched title falls back exactly
    as the absent one does. *)
Theorem C10_empty_enriched_title_falls_back self conn :
  let t := current conn in
  (forall p, p ∈ products t -> NoDup (map id_ (products t)) -> untitled t p ->
     exists a,
       nodes (graph (build_graph_from_db self conn)) !! inl (id_ p) = Some a
       /\ a !! "title" = Some (PStr (raw_title p)))
  /\ (forall pid v, v ∈ get_product_relationships self pid conn ->
        exists p, p ∈ products t /\ id_ p = v_product_id v
                  /\ (untitled t p -> v_title v = raw_title p))
  /\ (forall p e, blank_title e ->
        sp_title (source_product_of (p, e)) = raw_title p
        /\ op_title (other_product_of (p, e)) = raw_title p).
Proof.
  intros t. split; [|split].
  - intros p Hp Hnd Hu. apply build_product_title; assumption.
  - intros pid v Hv.
    apply relationship_view_source in Hv
      as (pr & p & row & Hpr & Hsrc & Hp & Htgt & Hrow & ->).
    exists p. split; [exact Hp|].
    pose proof (left_join_row _ _ _ Hrow) as [H1 _].
    destruct row as [q e]. simpl in H1. subst q.
    split; [simpl; congruence|]. intros Hu. simpl.
    apply str_or_blank. exact (joined_blank _ _ _ Hu Hrow).
  - intros p e He. simpl. rewrite !str_or_blank by exact He. auto.
Qed.

Lemma C10_empty_enriched_title_falls_back_witness :
  exists a,
    nodes (graph (build_graph_from_db Samples.fresh_service
                    (Samples.on_tables Samples.dangling_tables))) !! inl 2
    = Some a
    /\ a !! "title" = Some (PStr "Bolt Keyboard").
Proof.
  destruct (C10_empty_enriched_title_falls_back Samples.fresh_service
              (Samples.on_tables Samples.dangling_tables)) as (H & _ & _).
  apply (H (Samples.product 2 "Bolt Keyboard" (Some "") (Some "Bolt"))).
  - right. left.
  - apply (bool_decide_unpack _). vm_compute. exact I.
  - intros e He _. apply list_elem_of_singleton in He as ->. right. reflexivity.
Defined.

(** **** Structural edges *)

Definition typed_as (a : attrs) (ty : string) : Prop :=
  a !! "relationship_type" = Some (PStr ty).

Definition category_key (i : Z) (c : string) : node_key * node_key :=
  (inl i, inr ("category_" +:+ c)).

Definition brand_key (i : Z) (b : string) : node_key * node_key :=
  (inl i, inr ("brand_" +:+ b)).

Lemma category_brand_key i c j b : category_key i c <> brand_key j b.
Proof. unfold category_key, brand_key. intros H. discriminate H. Qed.

Lemma truthy_nonempty (s : string) : str_truthy s = true <-> s <> "".
Proof. destruct s; simpl; split; congruence. Qed.

Lemma belongs_to_edge ps g p c :
  p ∈ ps -> category p = Some c -> c <> "" ->
  exists a, edges (fold_left add_belongs_to ps g) !! category_key (id_ p) c = Some a
            /\ typed_as a "BELONGS_TO".
Proof.
  intros Hp Hc Hne. apply truthy_nonempty in Hne.
  apply (fold_left_reach add_belongs_to (fun _ => True)
           (fun g' => exists a, edges g' !! category_key (id_ p) c = Some a
                     /\ typed_as a "BELONGS_TO") _ _ p); auto.
  - intros g' _. unfold add_belongs_to. rewrite Hc, Hne, add_edge_edges.
    rewrite decide_True by reflexivity. eexists. split; [reflexivity|].
    apply lookup_union_Some_l. reflexivity.
  - intros g' q _ (a & Ha & Hta). unfold add_belongs_to.
    destruct (category q) as [cq|]; [|eauto].
    destruct (str_truthy cq); [|eauto].
    rewrite add_edge_edges. case_decide; [|eauto].
    eexists. split; [reflexivity|]. apply lookup_union_Some_l. reflexivity.
Qed.

Lemma made_by_keeps_category_edge ps g i c :
  edges (fold_left add_made_by ps g) !! category_key i c
  = edges g !! category_key i c.
Proof.
  apply fold_left_inv; [reflexivity|]. intros g' q _ H.
  unfold add_made_by. destruct (brand q) as [b|]; [|exact H].
  destruct (str_truthy b); [|exact H].
  rewrite add_edge_edges. rewrite decide_False; [exact H|].
  intros Heq. symmetry in Heq. exact (category_brand_key _ _ _ _ Heq).
Qed.

Lemma made_by_edge ps g p b :
  p ∈ ps -> brand p = Some b -> b <> "" ->
  exists a, edges (fold_left add_made_by ps g) !! brand_key (id_ p) b = Some a
            /\ typed_as a "MADE_BY".
Proof.
  intros Hp Hb Hne. apply truthy_nonempty in Hne.
  apply (fold_left_reach add_made_by (fun _ => True)
           (fun g' => exists a, edges g' !! brand_key (id_ p) b = Some a
                     /\ typed_as a "MADE_BY") _ _ p); auto.
  - intros g' _. unfold add_made_by. rewrite Hb, Hne, add_edge_edges.
    rewrite decide_True by reflexivity. eexists. split; [reflexivity|].
    apply lookup_union_Some_l. reflexivity.
  - intros g' q _ (a & Ha & Hta). unfold add_made_by.
    destruct (brand q) as [bq|]; [|eauto].
    destruct (str_truthy bq); [|eauto].
    rewrite add_edge_edges. case_decide; [|eauto].
    eexists. split; [reflexivity|]. apply lookup_union_Some_l. reflexivity.
Qed.

(** Where an edge from a product to a named node comes from. *)
Definition structural (ps : list product_row) (g : digraph) : Prop :=
  forall i x a, edges g !! (inl i, inr x) = Some a ->
    (typed_as a "BELONGS_TO"
     /\ exists q c, q ∈ ps /\ id_ q = i /\ category q = Some c
                    /\ x = "category_" +:+ c)
    \/ (typed_as a "MADE_BY"
        /\ exists q b, q ∈ ps /\ id_ q = i /\ brand q = Some b
                       /\ x = "brand_" +:+ b).

Lemma belongs_to_structural ps qs g :
  (forall q, q ∈ qs -> q ∈ ps) -> structural ps g ->
  structural ps (fold_left add_belongs_to qs g).
Proof.
  intros Hsub Hg. apply fold_left_inv; [exact Hg|].
  intros g' q Hq Hg' i x a. unfold add_belongs_to.
  destruct (category q) as [c|] eqn:Hc; [|apply Hg'].
  destruct (str_truthy c); [|apply Hg'].
  rewrite add_edge_edges. case_decide as Hk; [|apply Hg'].
  injection Hk as <- <-. intros [= <-]. left.
  split; [apply lookup_union_Some_l; reflexivity|].
  exists q, c. auto.
Qed.

Lemma made_by_structural ps qs g :
  (forall q, q ∈ qs -> q ∈ ps) -> structural ps g ->
  structural ps (fold_left add_made_by qs g).
Proof.
  intros Hsub Hg. apply fold_left_inv; [exact Hg|].
  intros g' q Hq Hg' i x a. unfold add_made_by.
  destruct (brand q) as [b|] eqn:Hb; [|apply Hg'].
  destruct (str_truthy b); [|apply Hg'].
  rewrite add_edge_edges. case_decide as Hk; [|apply Hg'].
  injection Hk as <- <-. intros [= <-]. right.
  split; [apply lookup_union_Some_l; reflexivity|].
  exists q, b. auto.
Qed.

Lemma build_structural self conn :
  structural (products (current conn)) (graph (build_graph_from_db self conn)).
Proof.
  unfold build_graph_from_db. cbn [graph].
  apply made_by_structural; [auto|]. apply belongs_to_structural; [auto|].
  intros i x a. rewrite relationship_edges_to_name.
  rewrite brand_nodes_edges, category_nodes_edges, product_nodes_edges.
  simpl. rewrite lookup_empty. discriminate.
Qed.

(** Building again gives the graph of a single build. *)
Lemma build_again self conn n :
  (0 < n)%nat ->
  graph (Nat.iter n (fun s => build_graph_from_db s conn) self)
  = graph (build_graph_from_db self conn).
Proof. destruct n as [|n]; [lia|]. intros _. reflexivity. Qed.

(** C9, the claim as stated fails: product 2 has a category that is
    present but empty and the brand "Bolt"; the built graph has its
    [MADE_BY] edge and no [BELONGS_TO] edge from it. *)
Lemma C9_empty_category_counterexample :
  let g := graph (build_graph_from_db Samples.fresh_service
                    (Samples.on_tables Samples.dangling_tables)) in
  Samples.product 2 "Bolt Keyboard" (Some "") (Some "Bolt")
    ∈ products Samples.dangling_tables
  /\ filter (fun k => k.1 = inl 2) (map fst (map_to_list (edges g)))
     = [(inl 2, inr "brand_Bolt")]
  /\ edges g !! (inl 2, inr "category_") = None.
Proof.
  cbv zeta. split; [right; left|]. split; vm_compute; reflexivity.
Qed.

(** C9 as amended: for a product whose category and brand are present and
    not empty, in a catalog whose product ids are distinct, after any
    number of consecutive builds on the same snapshot the graph has a
    [BELONGS_TO] edge from the product to its category node and a [MADE_BY]
    edge to its brand node, and no other [BELONGS_TO] or [MADE_BY] edge
    from the product to a category or brand node. *)
Theorem C9_structural_edges_regenerated self conn p c b n :
  p ∈ products (current conn) ->
  NoDup (map id_ (products (current conn))) ->
  category p = Some c -> c <> "" ->
  brand p = Some b -> b <> "" ->
  (0 < n)%nat ->
  let g := graph (Nat.iter n (fun s => build_graph_from_db s conn) self) in
  (exists a, edges g !! (inl (id_ p), inr ("category_" +:+ c)) = Some a
             /\ typed_as a "BELONGS_TO")
  /\ (exists a, edges g !! (inl (id_ p), inr ("brand_" +:+ b)) = Some a
                /\ typed_as a "MADE_BY")
  /\ (forall x a, edges g !! (inl (id_ p), inr x) = Some a ->
        typed_as a "BELONGS_TO" -> x = "category_" +:+ c)
  /\ (forall x a, edges g !! (inl (id_ p), inr x) = Some a ->
        typed_as a "MADE_BY" -> x = "brand_" +:+ b).
Proof.
  intros Hp Hnd Hc Hcne Hb Hbne Hn g. unfold g. rewrite build_again by exact Hn.
  split; [|split; [|split]].
  - unfold build_graph_from_db. cbn [graph].
    change (inl (id_ p), inr ("category_" +:+ c)) with (category_key (id_ p) c).
    rewrite made_by_keeps_category_edge.
    apply belongs_to_edge; assumption.
  - unfold build_graph_from_db. cbn [graph].
    apply (made_by_edge _ _ p b); assumption.
  - intros x a Hx Ha.
    destruct (build_structural self conn _ _ _ Hx)
      as [[_ (q & c' & Hq & Hid & Hcq & ->)] | [Hm _]].
    + assert (q = p) as -> by (eapply unique_id; eauto). congruence.
    + unfold typed_as in *. congruence.
  - intros x a Hx Ha.
    destruct (build_structural self conn _ _ _ Hx)
      as [[Hm _] | [_ (q & b' & Hq & Hid & Hbq & ->)]].
    + unfold typed_as in *. congruence.
    + assert (q = p) as -> by (eapply unique_id; eauto). congruence.
Qed.

Lemma C9_structural_edges_regenerated_witness :
  let g := graph (Nat.iter 3 (fun s => build_graph_from_db s
                                (Samples.on_tables Samples.dangling_tables))
                    Samples.fresh_service) in
  (exists a, edges g !! (inl 1, inr "category_Mice") = Some a
             /\ typed_as a "BELONGS_TO")
  /\ (exists a, edges g !! (inl 1, inr "brand_Acme") = Some a
                /\ typed_as a "MADE_BY")
  /\ (forall x a, edges g !! (inl 1, inr x) = Some a ->
        typed_as a "BELONGS_TO" -> x = "category_Mice")
  /\ (forall x a, edges g !! (inl 1, inr x) = Some a ->
        typed_as a "MADE_BY" -> x = "brand_Acme").
Proof.
  apply (C9_structural_edges_regenerated Samples.fresh_service
           (Samples.on_tables Samples.dangling_tables)
           (Samples.product 1 "Acme Wireless Mouse" (Some "Mice") (Some "Acme"))
           "Mice" "Acme" 3).
  - left.
  - apply (bool_decide_unpack _). vm_compute. exact I.
  - reflexivity.
  - discriminate.
  - reflexivity.
  - discriminate.
  - lia.
Defined.

End GraphProofs.

(** ** Relationship store: proofs *)

Section StoreProofs.

Definition triple_of (r : relationship_row) : Z * Z * string :=
  (source_product_id r, target_product_id r, relationship_type r).

(** The states of service and connection that upserts and rebuilds reach
    from an empty relationship table. *)
Inductive reachable : service -> connection -> Prop :=
  | reach_empty self conn :
      product_relationships (current conn) = [] -> reachable self conn
  | reach_upsert self conn s t ty q why :
      reachable self conn ->
      reachable self (_store_relationship conn s t ty q why)
  | reach_rebuild self conn :
      reachable self conn -> reachable (build_graph_from_db self conn) conn.

Lemma same_triple_iff a b : same_triple a b <-> triple_of a = triple_of b.
Proof.
  unfold same_triple, triple_of. split.
  - intros (-> & -> & ->). reflexivity.
  - intros [= -> -> ->]. auto.
Qed.

Lemma filter_triples_subset (P : relationship_row -> Prop)
    `{forall x, Decision (P x)} (tbl : list relationship_row) k :
  k ∈ map triple_of (filter P tbl) -> k ∈ map triple_of tbl.
Proof.
  intros Hk. apply list_elem_of_In, in_map_iff in Hk as (r & <- & Hr).
  apply list_elem_of_In, list_elem_of_filter in Hr as [_ Hr].
  apply list_elem_of_In, in_map, list_elem_of_In. exact Hr.
Qed.

Lemma filter_triples_nodup (P : relationship_row -> Prop)
    `{forall x, Decision (P x)} (tbl : list relationship_row) :
  NoDup (map triple_of tbl) -> NoDup (map triple_of (filter P tbl)).
Proof.
  induction tbl as [|r tbl IH]; simpl; intros Hnd; [constructor|].
  apply NoDup_cons in Hnd as [Hr Hnd]. rewrite filter_cons.
  case_decide; [|apply IH; exact Hnd].
  simpl. apply NoDup_cons. split; [|apply IH; exact Hnd].
  intros Hin. apply Hr. eapply filter_triples_subset. exact Hin.
Qed.

Lemma insert_or_replace_nodup r tbl :
  NoDup (map triple_of tbl) -> NoDup (map triple_of (insert_or_replace r tbl)).
Proof.
  intros Hnd. unfold insert_or_replace. rewrite map_app. simpl.
  apply NoDup_app. split; [apply filter_triples_nodup; exact Hnd|].
  split; [|apply NoDup_singleton].
  intros k Hk Hk'. apply list_elem_of_singleton in Hk' as ->.
  apply list_elem_of_In, in_map_iff in Hk as (x & Hx & Hin).
  apply list_elem_of_In, list_elem_of_filter in Hin as [Hne _].
  apply Hne, same_triple_iff. exact Hx.
Qed.

Lemma reachable_unique self conn :
  reachable self conn ->
  NoDup (map triple_of (product_relationships (current conn))).
Proof.
  induction 1 as [self conn Hnil | self conn s t ty q why _ IH | self conn _ IH].
  - rewrite Hnil. constructor.
  - simpl. apply insert_or_replace_nodup. exact IH.
  - exact IH.
Qed.

Lemma filter_out_then_in (r : relationship_row) tbl :
  filter (fun x => triple_of x = triple_of r)
    (filter (fun x => ~ same_triple x r) tbl) = [].
Proof.
  induction tbl as [|x tbl IH]; [reflexivity|].
  rewrite filter_cons. case_decide as Hx; [|exact IH].
  rewrite filter_cons. case_decide as Hx'; [|exact IH].
  exfalso. apply Hx, same_triple_iff. exact Hx'.
Qed.

Lemma insert_or_replace_single r tbl :
  filter (fun x => triple_of x = triple_of r) (insert_or_replace r tbl) = [r].
Proof.
  unfold insert_or_replace. rewrite filter_app, filter_out_then_in.
  rewrite filter_cons, decide_True by reflexivity. reflexivity.
Qed.

Lemma insert_or_replace_keeps r x tbl :
  x ∈ tbl -> triple_of x <> triple_of r -> x ∈ insert_or_replace r tbl.
Proof.
  intros Hx Hne. unfold insert_or_replace. apply elem_of_app. left.
  apply list_elem_of_filter. split; [|exact Hx].
  intros Hs. apply Hne, same_triple_iff. exact Hs.
Qed.

Lemma insert_or_replace_new r tbl : r ∈ insert_or_replace r tbl.
Proof. unfold insert_or_replace. apply elem_of_app. right. left. Qed.

(** C6, the claim as stated fails: after product 1 is stored as similar
    to product 2 and then as complementing it, the store holds both
    records, and the graph built from it holds one edge from 1 to 2, of
    type [COMPLEMENTS]; no edge of the graph is of type [SIMILAR_TO]. *)
Lemma C6_edge_per_pair_counterexample :
  let g := graph (build_graph_from_db Samples.fresh_service Samples.two_kinds) in
  map triple_of (product_relationships (current Samples.two_kinds))
    = [(1, 2, "SIMILAR_TO"); (1, 2, "COMPLEMENTS")]
  /\ map (fun ka => (ka.1, ka.2 !! "relationship_type")) (map_to_list (edges g))
     = [(inl 1, inr "category_Mice", Some (PStr "BELONGS_TO"));
        (inl 1, inr "brand_Acme", Some (PStr "MADE_BY"));
        (inl 2, inr "brand_Bolt", Some (PStr "MADE_BY"));
        (inl 1, inl 2, Some (PStr "COMPLEMENTS"))].
Proof. cbv zeta. split; vm_compute; reflexivity. Qed.

(** C6 as amended: in every state reached from an empty relationship
    table through upserts and rebuilds the store holds at most one record
    per ordered (source, target, type) triple; storing the same triple
    twice leaves exactly one record of it, with the later score; records
    of one source and target that differ in type are held side by side in
    the store; and the built graph has, for an ordered pair of products,
    one edge, which carries the attributes of the last record stored for
    the pair. *)
Theorem C6_one_record_per_triple :
  (forall self conn, reachable self conn ->
     NoDup (map triple_of (product_relationships (current conn))))
  /\ (forall conn s t ty q1 why1 q2 why2,
        filter (fun r => triple_of r = (s, t, ty))
          (product_relationships
             (current (_store_relationship
                         (_store_relationship conn s t ty q1 why1)
                         s t ty q2 why2)))
        = [{| source_product_id := s; target_product_id := t;
              relationship_type := ty; similarity_score := Some q2;
              reasoning := Some why2 |}])
  /\ (forall conn s t ty1 ty2 q1 why1 q2 why2,
        ty1 <> ty2 ->
        let tbl := product_relationships
                     (current (_store_relationship
                                 (_store_relationship conn s t ty1 q1 why1)
                                 s t ty2 q2 why2)) in
        {| source_product_id := s; target_product_id := t;
           relationship_type := ty1; similarity_score := Some q1;
           reasoning := Some why1 |} ∈ tbl
        /\ {| source_product_id := s; target_product_id := t;
              relationship_type := ty2; similarity_score := Some q2;
              reasoning := Some why2 |} ∈ tbl)
  /\ (forall self conn l1 r l2,
        product_relationships (current conn) = l1 ++ r :: l2 ->
        (forall r', r' ∈ l2 -> pair_of r' <> pair_of r) ->
        exists a,
          edges (graph (build_graph_from_db self conn)) !! pair_of r = Some a
          /\ carries a r).
Proof.
  split; [exact reachable_unique|]. split; [|split].
  - intros conn s t ty q1 why1 q2 why2. simpl.
    apply (insert_or_replace_single
             {| source_product_id := s; target_product_id := t;
                relationship_type := ty; similarity_score := Some q2;
                reasoning := Some why2 |}).
  - intros conn s t ty1 ty2 q1 why1 q2 why2 Hne. simpl. split.
    + apply insert_or_replace_keeps; [apply insert_or_replace_new|].
      unfold triple_of. simpl. congruence.
    + apply insert_or_replace_new.
  - intros self conn l1 r l2. apply build_edge_last.
Qed.

Lemma C6_one_record_per_triple_witness :
  NoDup (map triple_of (product_relationships (current Samples.two_kinds)))
  /\ Samples.relationship 1 2 "SIMILAR_TO" (Some (9 # 10)%Q)
       ∈ product_relationships
           (current (_store_relationship
                       (_store_relationship
                          (Samples.on_tables Samples.catalog_tables)
                          1 2 "SIMILAR_TO" (9 # 10)%Q "")
                       1 2 "COMPLEMENTS" (7 # 10)%Q "")).
Proof.
  destruct C6_one_record_per_triple as (Hunique & _ & Hboth & _). split.
  - apply (Hunique Samples.fresh_service). unfold Samples.two_kinds.
    do 2 apply reach_upsert. apply reach_empty. reflexivity.
  - apply (Hboth (Samples.on_tables Samples.catalog_tables) 1 2
             "SIMILAR_TO" "COMPLEMENTS" (9 # 10)%Q "" (7 # 10)%Q "").
    discriminate.
Defined.

End StoreProofs.

(** ** Discovery round and batch run: proofs *)

Section DiscoveryProofs.

Variable World : Type.
Variable propose :
  World -> source_product -> list other_product -> World * result (list proposal).





(** The callback, when there is one, returns without raising. *)
Definition never_raises (cb : option (progress -> result unit)) : Prop :=
  forall f, cb = Some f -> forall p, f p = Ok tt.

(** What one product adds to the events of the run: the callback's call
    after a round that succeeded, the printed line after one that failed. *)
Definition events_of (cb : option (progress -> result unit)) (total : Z)
    (pid processed_before : Z) (r : result (list proposal)) : list event :=
  match r with
  | Ok rels =>
      match cb with
      | Some _ =>
          [Progress {| pg_product_id := pid;
                       pg_processed := processed_before + 1;
                       pg_total := total;
                       pg_relationships_found := Z.of_nat (length rels) |}]
      | None => []
      end
  | Err _ => [Printed pid]
  end.

Definition found_by (r : result (list proposal)) : Z :=
  match r with
  | Ok rels => Z.of_nat (length rels)
  | Err _ => 0
  end.

Lemma batch_iteration_spec total cb st pid :
  never_raises cb ->
  let out := analyze_product_relationships World propose
               (b_self st) pid (b_conn st) (b_world st) in
  let st' := batch_iteration World propose total cb st pid in
  (b_self st', b_conn st', b_world st') = out.1
  /\ b_processed st' = b_processed st + 1
  /\ b_relationships_created st' = b_relationships_created st + found_by out.2
  /\ b_events st' = b_events st ++ events_of cb total pid (b_processed st) out.2.
Proof.
  intros Hcb. cbv zeta. unfold batch_iteration.
  destruct (analyze_product_relationships World propose (b_self st) pid
              (b_conn st) (b_world st)) as [[[self' conn'] w'] [rels|e]].
  - destruct cb as [f|] eqn:Hf.
    + rewrite (Hcb f eq_refl). simpl. auto.
    + simpl. rewrite app_nil_r. auto.
  - simpl. rewrite Z.add_0_r. auto.
Qed.

Lemma batch_loop_processed total cb ids st :
  never_raises cb ->
  b_processed (batch_loop World propose total cb ids st)
  = b_processed st + Z.of_nat (length ids).
Proof.
  intros Hcb. revert st. unfold batch_loop.
  induction ids as [|pid ids IH]; intros st; simpl; [lia|].
  rewrite IH.
  pose proof (batch_iteration_spec total cb st pid Hcb) as (_ & Hp & _).
  rewrite Hp. lia.
Qed.

(** The product an event is about. *)
Definition event_product (e : event) : Z :=
  match e with
  | Progress p => pg_product_id p
  | Printed i => i
  end.

Lemma batch_loop_events total f ids st :
  never_raises (Some f) ->
  map event_product (b_events (batch_loop World propose total (Some f) ids st))
  = map event_product (b_events st) ++ ids.
Proof.
  intros Hcb. revert st. unfold batch_loop.
  induction ids as [|pid ids IH]; intros st; simpl; [now rewrite app_nil_r|].
  rewrite IH.
  pose proof (batch_iteration_spec total (Some f) st pid Hcb) as (_ & _ & _ & He).
  rewrite He, map_app, <- app_assoc. f_equal.
  destruct (analyze_product_relationships World propose (b_self st) pid
              (b_conn st) (b_world st)).2; reflexivity.
Qed.

(** C8 as amended: the batch runs the products one after the other in
    the order of the list and never stops early; a round that fails is
    caught, [processed] still grows by one for it and the next product is
    taken; the observer, when one is given (and does not itself raise), is
    called after every product whose round succeeded, with the product
    id, the processed count, the total and the number of relationships
    found; after a failed round only a line is printed, so that with an
    observer every product leaves one event, in the order of the list. *)
Theorem C8_batch_never_aborts cb :
  never_raises cb ->
  (forall total st pid,
     let out := analyze_product_relationships World propose
                  (b_self st) pid (b_conn st) (b_world st) in
     let st' := batch_iteration World propose total cb st pid in
     (b_self st', b_conn st', b_world st') = out.1
     /\ b_processed st' = b_processed st + 1
     /\ b_relationships_created st' = b_relationships_created st + found_by out.2
     /\ b_events st' = b_events st ++ events_of cb total pid (b_processed st) out.2)
  /\ (forall total st before pid after,
        batch_loop World propose total cb (before ++ pid :: after) st
        = batch_loop World propose total cb after
            (batch_iteration World propose total cb
               (batch_loop World propose total cb before st) pid))
  /\ (forall self conn w,
        let run := batch_analyze_all_products World propose self conn w cb in
        total_products run.2 = Z.of_nat (length (products (current conn)))
        /\ processed run.2 = total_products run.2)
  /\ (forall self conn w,
        is_Some cb ->
        let run := batch_analyze_all_products World propose self conn w cb in
        map event_product (b_events run.1) = map id_ (products (current conn))).
Proof.
  intros Hcb. split; [|split; [|split]].
  4: { intros self conn w [f ->]. cbv zeta.
       unfold batch_analyze_all_products. simpl.
       rewrite batch_loop_events by exact Hcb. reflexivity. }
  - intros total st pid. apply batch_iteration_spec. exact Hcb.
  - intros total st before pid after. unfold batch_loop.
    rewrite fold_left_app. reflexivity.
  - intros self conn w. cbv zeta. unfold batch_analyze_all_products. simpl.
    rewrite batch_loop_processed by exact Hcb. simpl.
    rewrite length_map. split; [reflexivity | lia].
Qed.

End DiscoveryProofs.



(** C8, the claim as stated fails: the provider is unavailable for
    product 2 of three; the run counts the three as processed, and the
    observer is called for products 1 and 3 only: for product 2 a line is
    printed and the observer is not called. *)
Lemma C8_failed_item_unobserved_counterexample :
  let run := batch_analyze_all_products unit Samples.flaky_provider
               Samples.fresh_service
               (Samples.on_tables Samples.catalog_tables) tt
               (Some Samples.quiet_observer) in
  run.2 = {| total_products := 3; processed := 3; total_relationships := 2 |}
  /\ b_events run.1
     = [Progress {| pg_product_id := 1; pg_processed := 1; pg_total := 3;
                    pg_relationships_found := 1 |};
        Printed 2;
        Progress {| pg_product_id := 3; pg_processed := 3; pg_total := 3;
                    pg_relationships_found := 1 |}].
Proof. cbv zeta. split; vm_compute; reflexivity. Qed.

(** An observer that raises is caught by the same handler as a failed
    round: the product is then counted twice. *)
Example raising_observer_counted_twice :
  processed
    (batch_analyze_all_products unit Samples.flaky_provider
       Samples.fresh_service (Samples.on_tables Samples.catalog_tables) tt
       (Some (fun _ => Err ValueError))).2 = 5.
Proof. vm_compute. reflexivity. Qed.

Lemma C8_batch_never_aborts_witness :
  let run := batch_analyze_all_products unit Samples.flaky_provider
               Samples.fresh_service
               (Samples.on_tables Samples.catalog_tables) tt
               (Some Samples.quiet_observer) in
  total_products run.2 = 3 /\ processed run.2 = total_products run.2.
Proof.
  destruct (C8_batch_never_aborts unit Samples.flaky_provider
              (Some Samples.quiet_observer)) as (_ & _ & Hrun & _).
  - intros f [= <-] p. reflexivity.
  - exact (Hrun Samples.fresh_service
             (Samples.on_tables Samples.catalog_tables) tt).
Defined.

(** ** Recommendations: proofs *)

Section SortProofs.

Context {A : Type}.


#[global] Instance Qeq_decision (x y : Q) : Decision (x == y)%Q := Qeq_dec x y.



Lemma insert_desc_perm (k : Q) (x : A) (l : list (Q * A)) :
  insert_desc k x l ≡ₚ (k, x) :: l.
Proof.
  induction l as [|[ky y] l IH]; simpl; [reflexivity|].
  destruct (float_lt k ky); [|reflexivity].
  rewrite IH. apply Permutation_swap.
Qed.

Lemma sort_desc_perm (l : list (Q * A)) : sort_desc l ≡ₚ l.
Proof.
  induction l as [|[k x] l IH]; simpl; [reflexivity|].
  rewrite insert_desc_perm, IH. reflexivity.
Qed.





Variable key : A -> option Q.




(** The key of [x] is [q]. *)
Definition keyed (q : Q) (x : A) : Prop :=
  match key x with
  | Some k => (k == q)%Q
  | None => False
  end.

#[global] Instance keyed_decision q x : Decision (keyed q x).
Proof. unfold keyed. destruct (key x); apply _. Defined.











End SortProofs.

Section RecommendationProofs.

Definition of_type (ty : string) (v : relationship_view) : Prop :=
  v_relationship_type v = ty.

#[global] Instance of_type_decision ty v : Decision (of_type ty v).
Proof. unfold of_type. apply _. Defined.

Lemma append_by_type_partition rels init :
  let recs := fold_left append_by_type rels init in
  similar recs = similar init ++ filter (of_type "SIMILAR_TO") rels
  /\ complements recs = complements init ++ filter (of_type "COMPLEMENTS") rels
  /\ alternatives recs
     = alternatives init ++ filter (of_type "ALTERNATIVE_TO") rels.
Proof.
  revert init. induction rels as [|v rels IH]; intros init; simpl.
  - rewrite !app_nil_r. auto.
  - destruct (IH (append_by_type init v)) as (Hs & Hc & Ha).
    rewrite Hs, Hc, Ha. rewrite !filter_cons. unfold append_by_type.
    destruct (String.eqb_spec (v_relationship_type v) "SIMILAR_TO") as [H1|H1];
      [|destruct (String.eqb_spec (v_relationship_type v) "COMPLEMENTS")
          as [H2|H2];
        [|destruct (String.eqb_spec (v_relationship_type v) "ALTERNATIVE_TO")
            as [H3|H3]]];
      repeat match goal with
        | |- context [decide (of_type ?ty v)] =>
            first [ rewrite (decide_True (P := of_type ty v))
                      by (unfold of_type; congruence)
                  | rewrite (decide_False (P := of_type ty v))
                      by (unfold of_type; congruence) ]
        end;
      simpl; rewrite <- ?app_assoc; auto.
Qed.






End RecommendationProofs.

(** ** Scoring engine: further properties *)

Section ScoringRange.

Import Rules.

Lemma len_nonneg (v : pyval) (n : Z) : len v = Ok n -> 0 <= n.
Proof. destruct v; simpl; intros [= <-] || discriminate; lia. Qed.

Lemma dimension_floors (n w f g u : Z) :
  0 <= g -> 0 <= u ->
  0 <= title_points n /\ 5 <= attribute_points n
  /\ 0 <= description_points w + faq_points f
  /\ 0 <= structured_points g u.
Proof.
  intros Hg Hu.
  unfold title_points, attribute_points, description_points, faq_points,
    structured_points.
  repeat case_decide; lia.
Qed.

(** X1: whatever the input, a returned score lies between 15 and 100: the
    attribute dimension is never below 5, and the consistency dimension is
    10, 15 or 20, so that its floor at 0 never comes into play. *)
Theorem score_range e p total bd :
  calculate_aeo_score e p = Ok (total, bd) ->
  15 <= total <= 100
  /\ 0 <= title_optimization bd <= 20
  /\ 5 <= attribute_completeness bd <= 20
  /\ 0 <= semantic_richness bd <= 20
  /\ 0 <= structured_data bd <= 20
  /\ (consistency bd = 10 \/ consistency bd = 15 \/ consistency bd = 20).
Proof.
  intros Hrun.
  destruct (calculate_returns_only_well_typed _ _ _ _ Hrun)
    as (t & d & rt & b & c & na & nf & nt & nu & Hwt).
  destruct (calculate_well_typed _ _ _ _ _ _ _ _ _ _ _ Hwt)
    as (total' & bd' & Hrun' & Ht & Ha & Hs & Hg & Hc & Htot).
  rewrite Hrun in Hrun'. injection Hrun' as <- <-.
  pose proof (len_nonneg _ _ (wt_tags _ _ _ _ _ _ _ _ _ _ _ Hwt)) as Hnt.
  pose proof (len_nonneg _ _ (wt_use_cases _ _ _ _ _ _ _ _ _ _ _ Hwt)) as Hnu.
  pose proof (dimension_bounds (Z.of_nat (str_len t)) (word_count d) nf nt nu)
    as (B1 & _ & B3 & B4).
  pose proof (dimension_bounds na 0 0 0 0) as (_ & B2 & _).
  pose proof (dimension_floors (Z.of_nat (str_len t)) (word_count d) nf nt nu
                Hnt Hnu) as (F1 & _ & F3 & F4).
  pose proof (dimension_floors na 0 0 0 0 ltac:(lia) ltac:(lia)) as (_ & F2 & _).
  rewrite Htot, Ht, Ha, Hs, Hg, Hc.
  destruct (brand_test b t rt), (category_test c d); lia.
Qed.


Lemma score_range_witness :
  exists total bd,
    calculate_aeo_score Samples.mouse_enriched Samples.mouse_product
      = Ok (total, bd)
    /\ 15 <= total <= 100.
Proof.
  destruct (calculate_aeo_score Samples.mouse_enriched Samples.mouse_product)
    as [[total bd]|err] eqn:Hrun; [|vm_compute in Hrun; discriminate Hrun].
  exists total, bd. split; [reflexivity|].
  exact (proj1 (score_range _ _ _ _ Hrun)).
Defined.

End ScoringRange.

Section ScoringCase.

Import Rules.

(** The lower end of that range is reached. *)
Example score_floor_reached :
  exists bd,
    calculate_aeo_score ∅ Samples.mouse_product = Ok (15, bd).
Proof. eexists. vm_compute. reflexivity. Qed.

Lemma lower_char_idem (c : ascii) : lower_char (lower_char c) = lower_char c.
Proof. destruct c as [[] [] [] [] [] [] [] []]; reflexivity. Qed.


Lemma lower_str_idem (s : string) : lower_str (lower_str s) = lower_str s.
Proof.
  induction s as [|c s IH]; simpl; [reflexivity|].
  now rewrite lower_char_idem, IH.
Qed.








End ScoringCase.



Section ScoringDetails.

Import Rules.

(** X3: the explanation stored under ["consistency"] names exactly the
    deductions that were made. *)
Theorem consistency_detail e p t d rt b c na nf nt nu :
  well_typed e p t d rt b c na nf nt nu ->
  exists total bd,
    calculate_aeo_score e p = Ok (total, bd)
    /\ details bd !! "consistency" =
       Some (match brand_test b t rt, category_test c d with
             | true, true =>
                 "Brand missing from enriched title, category not mentioned"
             | true, false => "Brand missing from enriched title"
             | false, true => "Category not mentioned in description"
             | false, false => "Excellent alignment"
             end).
Proof.
  intros [Ht Ha Hd Hf Hg Hu Hr Hb Hc].
  unfold calculate_aeo_score.
  rewrite Ht, Ha, Hd, Hf, Hg, Hu, Hr, Hb, Hc.
  unfold len at 1. rewrite bind_ok.
  rewrite let_pair. rewrite bind_ok. rewrite let_pair.
  unfold split, lower. rewrite !bind_ok.
  rewrite let_pair.
  assert (Hcat : (if str_truthy (lower_str c)
                  then Ok (negb (str_in (lower_str c) (lower_str d)))
                  else Ok false) = Ok (category_test c d)).
  { unfold category_test. destruct (str_truthy (lower_str c)); reflexivity. }
  rewrite !bind_ok, Hcat, bind_ok, let_pair.
  fold (brand_test b t rt).
  match goal with
  | |- context [<["structured" := ?v]> ?m] =>
      set (m4 := <["structured" := v]> m)
  end.
  assert (H4 : m4 !! "consistency" = None).
  { unfold m4. rewrite !lookup_insert_ne by discriminate.
    repeat match goal with
           | |- context [if ?x then _ else _] => destruct x
           end; reflexivity. }
  clearbody m4.
  do 2 eexists. split; [reflexivity|]. cbn [details].
  destruct (brand_test b t rt), (category_test c d); cbn [fst snd].
  - change (20 - 5 - 5 =? 20) with false. cbv iota.
    rewrite lookup_insert_eq. rewrite lookup_insert_eq. reflexivity.
  - change (20 - 5 =? 20) with false. cbv iota.
    rewrite lookup_insert_eq. reflexivity.
  - change (20 - 5 =? 20) with false. cbv iota.
    rewrite H4. rewrite lookup_insert_eq. reflexivity.
  - change (20 =? 20) with true. cbv iota.
    rewrite lookup_insert_eq. reflexivity.
Qed.

Lemma consistency_detail_witness :
  exists total bd,
    calculate_aeo_score Samples.mouse_enriched Samples.mouse_product
      = Ok (total, bd)
    /\ details bd !! "consistency" = Some "Excellent alignment".
Proof.
  destruct (consistency_detail _ _ _ _ _ _ _ _ _ _ _ well_typed_mouse)
    as (total & bd & Hrun & Hd).
  exists total, bd. split; [exact Hrun|]. exact Hd.
Defined.

End ScoringDetails.

(** ** [app/main.py]: the score endpoint *)

Module Api.

(** The columns [get_score_breakdown] reads from the row of [products]
    left-joined with [enriched_products].  A text column is [None] when
    NULL.  A JSON column is [None] when its text is NULL or empty, and
    otherwise holds the value [json.loads] gives for the text, which is
    taken to be well-formed JSON, as [json.dumps] wrote it. *)
Record score_row : Type := {
  r_raw_title : option string;
  r_brand : option string;
  r_category : option string;
  r_enriched_title : option string;
  r_long_description : option string;
  r_key_attributes : option pyval;
  r_faqs : option pyval;
  r_semantic_tags : option pyval;
  r_use_cases : option pyval
}.

(** What the endpoint gives back: the [AEOScoreBreakdown], an
    [HTTPException] with status 404, or an exception it does not handle. *)
Inductive response : Type :=
  | Breakdown (total_score : Z) (breakdown : score_breakdown)
  | NotFound (detail : string)
  | Unhandled (e : pyerr).

Definition opt_truthy (o : option string) : bool :=
  match o with
  | Some s => str_truthy s
  | None => false
  end.

(** [row] is [None] when [cursor.fetchone()] finds no product. *)
Definition get_score_breakdown (row : option score_row) : response :=
  match row with
  | None => NotFound "Product not found"
  | Some row =>
      if negb (opt_truthy (r_enriched_title row)) then
        NotFound "Product has not been enriched yet"
      else
        (* Prepare data for scoring *)
        let product_data : gmap string pyval :=
          <["raw_title" := KnowledgeGraph.opt_str (r_raw_title row)]>
          (<["brand" := KnowledgeGraph.opt_str (r_brand row)]>
          (<["category" := KnowledgeGraph.opt_str (r_category row)]> ∅)) in
        let enriched_data : gmap string pyval :=
          <["enriched_title" := KnowledgeGraph.opt_str (r_enriched_title row)]>
          (<["long_description" :=
               KnowledgeGraph.opt_str (r_long_description row)]>
          (<["key_attributes" := default (PList []) (r_key_attributes row)]>
          (<["faqs" := default (PList []) (r_faqs row)]>
          (<["semantic_tags" := default (PList []) (r_semantic_tags row)]>
          (<["use_cases" := default (PList []) (r_use_cases row)]> ∅))))) in
        match calculate_aeo_score enriched_data product_data with
        | Ok (total_score, breakdown) => Breakdown total_score breakdown
        | Err e => Unhandled e
        end
  end.

End Api.

Section ApiProofs.

Import Rules Api.

(** The JSON column, read as a list when it is NULL, has a length. *)
Definition sized (o : option pyval) : Prop :=
  exists n, len (default (PList []) o) = Ok n.

(** Every column the scorer reads as text is there, and every JSON
    column has a length. *)
Definition scorable (row : score_row) : Prop :=
  is_Some (r_long_description row) /\ is_Some (r_raw_title row)
  /\ is_Some (r_brand row) /\ is_Some (r_category row)
  /\ sized (r_key_attributes row) /\ sized (r_faqs row)
  /\ sized (r_semantic_tags row) /\ sized (r_use_cases row).

Lemma opt_str_inv (o : option string) (s : string) :
  KnowledgeGraph.opt_str o = PStr s -> o = Some s.
Proof. destruct o; simpl; congruence. Qed.

(** X4: for a product that has an enrichment with a title, the endpoint
    answers with a breakdown exactly when the description, the raw title,
    the brand and the category are not NULL and the JSON columns hold
    sized values; in every other case the scorer's exception leaves the
    endpoint unhandled.  It never answers 404 for such a product. *)
Theorem score_endpoint_outcome row t :
  r_enriched_title row = Some t -> t <> "" ->
  (scorable row ->
     exists total bd, get_score_breakdown (Some row) = Breakdown total bd)
  /\ (~ scorable row -> exists e, get_score_breakdown (Some row) = Unhandled e).
Proof.
  intros Ht Hne. unfold get_score_breakdown. rewrite Ht.
  assert (Htruthy : opt_truthy (Some t) = true)
    by (destruct t; [congruence | reflexivity]).
  rewrite Htruthy. cbn [negb]. cbv iota zeta.
  match goal with
  | |- context [calculate_aeo_score ?e ?p] => set (ed := e); set (pd := p)
  end.
  split.
  - intros ([d Hd] & [rt Hrt] & [b Hb] & [c Hc]
            & [na Hna] & [nf Hnf] & [nt Hnt] & [nu Hnu]).
    assert (Hwt : well_typed ed pd t d rt b c na nf nt nu).
    { constructor.
      - change (get ed "enriched_title" (PStr ""))
          with (KnowledgeGraph.opt_str (Some t)). reflexivity.
      - exact Hna.
      - change (get ed "long_description" (PStr ""))
          with (KnowledgeGraph.opt_str (r_long_description row)).
        rewrite Hd. reflexivity.
      - exact Hnf.
      - exact Hnt.
      - exact Hnu.
      - change (get pd "raw_title" (PStr ""))
          with (KnowledgeGraph.opt_str (r_raw_title row)).
        rewrite Hrt. reflexivity.
      - change (get pd "brand" (PStr ""))
          with (KnowledgeGraph.opt_str (r_brand row)).
        rewrite Hb. reflexivity.
      - change (get pd "category" (PStr ""))
          with (KnowledgeGraph.opt_str (r_category row)).
        rewrite Hc. reflexivity. }
    destruct (calculate_well_typed _ _ _ _ _ _ _ _ _ _ _ Hwt)
      as (total & bd & Hrun & _).
    rewrite Hrun. exists total, bd. reflexivity.
  - intros Hno.
    destruct (calculate_aeo_score ed pd) as [[total bd]|e] eqn:Hrun; [|eauto].
    exfalso. apply Hno.
    destruct (calculate_returns_only_well_typed _ _ _ _ Hrun)
      as (t' & d & rt & b & c & na & nf & nt & nu
          & [Wt Wa Wd Wf Wg Wu Wr Wb Wc]).
    change (get ed "long_description" (PStr ""))
      with (KnowledgeGraph.opt_str (r_long_description row)) in Wd.
    change (get pd "raw_title" (PStr ""))
      with (KnowledgeGraph.opt_str (r_raw_title row)) in Wr.
    change (get pd "brand" (PStr ""))
      with (KnowledgeGraph.opt_str (r_brand row)) in Wb.
    change (get pd "category" (PStr ""))
      with (KnowledgeGraph.opt_str (r_category row)) in Wc.
    apply opt_str_inv in Wd, Wr, Wb, Wc.
    unfold scorable, sized. rewrite Wd, Wr, Wb, Wc.
    repeat split; eauto.
Qed.

End ApiProofs.

Definition unbranded_row : Api.score_row :=
  {| Api.r_raw_title := Some "Acme Wireless Mouse";
     Api.r_brand := None;
     Api.r_category := Some "Mice";
     Api.r_enriched_title := Some "Acme Ergonomic Wireless Mouse";
     Api.r_long_description := Some "An ergonomic wireless mouse";
     Api.r_key_attributes := None;
     Api.r_faqs := None;
     Api.r_semantic_tags := None;
     Api.r_use_cases := None |}.

Lemma score_endpoint_outcome_witness :
  exists e, Api.get_score_breakdown (Some unbranded_row) = Api.Unhandled e.
Proof.
  destruct (score_endpoint_outcome unbranded_row "Acme Ergonomic Wireless Mouse")
    as [_ H].
  - reflexivity.
  - discriminate.
  - apply H. intros (_ & _ & [b Hb] & _). discriminate Hb.
Defined.

(** ** Graph build: the nodes and edges of the result *)

Section GraphShape.

Lemma fold_left_grows {A B : Type} (f : A -> B -> A) (present : A -> Prop)
    (hit : B -> Prop) (l : list B) (a : A) :
  (forall a x, present (f a x) <-> present a \/ hit x) ->
  present (fold_left f l a) <-> present a \/ exists x, x ∈ l /\ hit x.
Proof.
  intros Hstep. revert a. induction l as [|y l IH]; intros a; simpl.
  - split; [auto | intros [H|(x & Hx & _)]; [exact H | inversion Hx]].
  - rewrite IH, Hstep. split.
    + intros [[H|H]|(x & Hx & H)]; [auto | right | right].
      * exists y. split; [left | exact H].
      * exists x. split; [right; exact Hx | exact H].
    + intros [H|(x & Hx & H)]; [auto|].
      apply elem_of_cons in Hx as [->|Hx]; [auto|].
      right. exists x. auto.
Qed.

Lemma add_node_present g n a m :
  is_Some (nodes (add_node g n a) !! m) <-> is_Some (nodes g !! m) \/ m = n.
Proof.
  rewrite add_node_lookup. case_decide as Hd.
  - subst. split; [auto | intros _; eauto].
  - split; [auto | intros [H|H]; [exact H | congruence]].
Qed.

Lemma add_edge_present g u v a m :
  is_Some (nodes (add_edge g u v a) !! m)
  <-> is_Some (nodes g !! m) \/ (m = u \/ m = v).
Proof.
  rewrite add_edge_nodes. destruct (nodes g !! m) as [x|].
  - split; [intros _; left; eauto | intros _; eauto].
  - case_decide as Hd.
    + split; [intros _; right; destruct Hd; auto | intros _; eauto].
    + split; [intros [? H]; discriminate H|].
      intros [[? H]|[->| ->]]; [discriminate H | |]; exfalso; apply Hd; auto.
Qed.

Lemma add_edge_edge_present g u v a k :
  is_Some (edges (add_edge g u v a) !! k)
  <-> is_Some (edges g !! k) \/ k = (u, v).
Proof.
  rewrite add_edge_edges. case_decide as Hd.
  - subst. split; [auto | intros _; eauto].
  - split; [auto | intros [H|H]; [exact H | congruence]].
Qed.

(** The nodes a product row brings with its category. *)
Definition category_of (p : product_row) (c : string) : Prop :=
  category p = Some c /\ c <> "".

Definition brand_of (p : product_row) (b : string) : Prop :=
  brand p = Some b /\ b <> "".

Lemma belongs_to_skips g p :
  (forall c, ~ category_of p c) -> add_belongs_to g p = g.
Proof.
  unfold add_belongs_to, category_of. intros Hno.
  destruct (category p) as [c|]; [|reflexivity].
  destruct (str_truthy c) eqn:Hc; [|reflexivity].
  exfalso. apply (Hno c). apply truthy_nonempty in Hc. auto.
Qed.

Lemma made_by_skips g p :
  (forall b, ~ brand_of p b) -> add_made_by g p = g.
Proof.
  unfold add_made_by, brand_of. intros Hno.
  destruct (brand p) as [c|]; [|reflexivity].
  destruct (str_truthy c) eqn:Hc; [|reflexivity].
  exfalso. apply (Hno c). apply truthy_nonempty in Hc. auto.
Qed.

Lemma belongs_to_adds g p c :
  category_of p c ->
  add_belongs_to g p
  = add_edge g (inl (id_ p)) (inr ("category_" +:+ c))
      (<["relationship_type" := PStr "BELONGS_TO"]> ∅).
Proof.
  unfold add_belongs_to, category_of. intros [-> Hc].
  apply truthy_nonempty in Hc. rewrite Hc. reflexivity.
Qed.

Lemma made_by_adds g p b :
  brand_of p b ->
  add_made_by g p
  = add_edge g (inl (id_ p)) (inr ("brand_" +:+ b))
      (<["relationship_type" := PStr "MADE_BY"]> ∅).
Proof.
  unfold add_made_by, brand_of. intros [-> Hc].
  apply truthy_nonempty in Hc. rewrite Hc. reflexivity.
Qed.

Lemma category_of_dec p : (exists c, category_of p c) \/ forall c, ~ category_of p c.
Proof.
  unfold category_of. destruct (category p) as [c|].
  - destruct (decide (c = "")) as [->|Hc].
    + right. intros c [[= <-] H]. congruence.
    + left. eauto.
  - right. intros c [H _]. discriminate H.
Qed.

Lemma brand_of_dec p : (exists b, brand_of p b) \/ forall b, ~ brand_of p b.
Proof.
  unfold brand_of. destruct (brand p) as [c|].
  - destruct (decide (c = "")) as [->|Hc].
    + right. intros c [[= <-] H]. congruence.
    + left. eauto.
  - right. intros c [H _]. discriminate H.
Qed.

Lemma category_node_present g c n :
  is_Some (nodes (add_category_node g c) !! n)
  <-> is_Some (nodes g !! n) \/ (c <> "" /\ n = inr ("category_" +:+ c)).
Proof.
  unfold add_category_node. destruct (str_truthy c) eqn:Hc.
  - rewrite add_node_present. apply truthy_nonempty in Hc. tauto.
  - assert (c = "") as -> by (destruct c; [reflexivity | discriminate Hc]).
    split; [auto | intros [H|[H _]]; [exact H | congruence]].
Qed.

Lemma brand_node_present g b n :
  is_Some (nodes (add_brand_node g b) !! n)
  <-> is_Some (nodes g !! n) \/ (b <> "" /\ n = inr ("brand_" +:+ b)).
Proof.
  unfold add_brand_node. destruct (str_truthy b) eqn:Hc.
  - rewrite add_node_present. apply truthy_nonempty in Hc. tauto.
  - assert (b = "") as -> by (destruct b; [reflexivity | discriminate Hc]).
    split; [auto | intros [H|[H _]]; [exact H | congruence]].
Qed.

Lemma belongs_to_present g p n :
  is_Some (nodes (add_belongs_to g p) !! n)
  <-> is_Some (nodes g !! n)
      \/ exists c, category_of p c
                   /\ (n = inl (id_ p) \/ n = inr ("category_" +:+ c)).
Proof.
  destruct (category_of_dec p) as [[c Hc]|Hno].
  - rewrite (belongs_to_adds g p c Hc), add_edge_present. split.
    + intros [H|H]; [auto | right; eauto].
    + intros [H|(c' & Hc' & H)]; [auto|]. right.
      destruct Hc as [Hc _], Hc' as [Hc' _]. congruence.
  - rewrite (belongs_to_skips g p Hno). split; [auto|].
    intros [H|(c & Hc & _)]; [exact H | destruct (Hno c Hc)].
Qed.

Lemma made_by_present g p n :
  is_Some (nodes (add_made_by g p) !! n)
  <-> is_Some (nodes g !! n)
      \/ exists b, brand_of p b
                   /\ (n = inl (id_ p) \/ n = inr ("brand_" +:+ b)).
Proof.
  destruct (brand_of_dec p) as [[c Hc]|Hno].
  - rewrite (made_by_adds g p c Hc), add_edge_present. split.
    + intros [H|H]; [auto | right; eauto].
    + intros [H|(c' & Hc' & H)]; [auto|]. right.
      destruct Hc as [Hc _], Hc' as [Hc' _]. congruence.
  - rewrite (made_by_skips g p Hno). split; [auto|].
    intros [H|(c & Hc & _)]; [exact H | destruct (Hno c Hc)].
Qed.

Lemma belongs_to_edge_present g p k :
  is_Some (edges (add_belongs_to g p) !! k)
  <-> is_Some (edges g !! k)
      \/ exists c, category_of p c /\ k = category_key (id_ p) c.
Proof.
  destruct (category_of_dec p) as [[c Hc]|Hno].
  - rewrite (belongs_to_adds g p c Hc), add_edge_edge_present. split.
    + intros [H|H]; [auto | right; eauto].
    + intros [H|(c' & Hc' & H)]; [auto|]. right.
      destruct Hc as [Hc _], Hc' as [Hc' _]. unfold category_key in H. congruence.
  - rewrite (belongs_to_skips g p Hno). split; [auto|].
    intros [H|(c & Hc & _)]; [exact H | destruct (Hno c Hc)].
Qed.

Lemma made_by_edge_present g p k :
  is_Some (edges (add_made_by g p) !! k)
  <-> is_Some (edges g !! k)
      \/ exists b, brand_of p b /\ k = brand_key (id_ p) b.
Proof.
  destruct (brand_of_dec p) as [[c Hc]|Hno].
  - rewrite (made_by_adds g p c Hc), add_edge_edge_present. split.
    + intros [H|H]; [auto | right; eauto].
    + intros [H|(c' & Hc' & H)]; [auto|]. right.
      destruct Hc as [Hc _], Hc' as [Hc' _]. unfold brand_key in H. congruence.
  - rewrite (made_by_skips g p Hno). split; [auto|].
    intros [H|(c & Hc & _)]; [exact H | destruct (Hno c Hc)].
Qed.

(** What each node of the built graph stands for. *)
Definition node_origin (t : tables) (n : node_key) : Prop :=
  (exists p, p ∈ products t /\ n = inl (id_ p))
  \/ (exists p c, p ∈ products t /\ category_of p c
                  /\ n = inr ("category_" +:+ c))
  \/ (exists p b, p ∈ products t /\ brand_of p b /\ n = inr ("brand_" +:+ b))
  \/ (exists r, r ∈ product_relationships t
                /\ (n = inl (source_product_id r)
                    \/ n = inl (target_product_id r))).

(** What each edge of the built graph stands for. *)
Definition edge_origin (t : tables) (k : node_key * node_key) : Prop :=
  (exists r, r ∈ product_relationships t /\ k = pair_of r)
  \/ (exists p c, p ∈ products t /\ category_of p c
                  /\ k = category_key (id_ p) c)
  \/ (exists p b, p ∈ products t /\ brand_of p b /\ k = brand_key (id_ p) b).

Lemma build_nodes_iff self conn n :
  is_Some (nodes (graph (build_graph_from_db self conn)) !! n)
  <-> node_origin (current conn) n.
Proof.
  unfold build_graph_from_db. cbn [graph]. set (t := current conn).
  rewrite (fold_left_grows add_made_by (fun g => is_Some (nodes g !! n))
             (fun p => exists b, brand_of p b
                         /\ (n = inl (id_ p) \/ n = inr ("brand_" +:+ b))))
    by (intros; apply made_by_present).
  rewrite (fold_left_grows add_belongs_to (fun g => is_Some (nodes g !! n))
             (fun p => exists c, category_of p c
                         /\ (n = inl (id_ p) \/ n = inr ("category_" +:+ c))))
    by (intros; apply belongs_to_present).
  rewrite (fold_left_grows add_relationship_edge
             (fun g => is_Some (nodes g !! n))
             (fun r => n = inl (source_product_id r)
                       \/ n = inl (target_product_id r)))
    by (intros; unfold add_relationship_edge; apply add_edge_present).
  rewrite (fold_left_grows add_brand_node (fun g => is_Some (nodes g !! n))
             (fun b => b <> "" /\ n = inr ("brand_" +:+ b)))
    by (intros; apply brand_node_present).
  rewrite (fold_left_grows add_category_node (fun g => is_Some (nodes g !! n))
             (fun c => c <> "" /\ n = inr ("category_" +:+ c)))
    by (intros; apply category_node_present).
  rewrite (fold_left_grows add_product_node (fun g => is_Some (nodes g !! n))
             (fun row => n = inl (id_ row.1)))
    by (intros; unfold add_product_node; apply add_node_present).
  unfold node_origin. simpl. rewrite lookup_empty. split.
  - intros [[[[[[[? H]|(row & Hrow & ->)]|(c & Hc & Hne & ->)]
               |(b & Hb & Hne & ->)]|(r & Hr & H)]
             |(p & Hp & c & Hc & H)]|(p & Hp & b & Hb & H)].
    + discriminate H.
    + left. exists row.1. split; [|reflexivity].
      apply joined_row in Hrow as [Hrow _]. exact Hrow.
    + right. left. apply elem_of_remove_dups, list_elem_of_omap in Hc
        as (p & Hp & Hc). exists p, c. unfold category_of. auto.
    + right. right. left.
      apply elem_of_remove_dups, list_elem_of_omap in Hb as (p & Hp & Hb).
      exists p, b. unfold brand_of. auto.
    + right. right. right. eauto.
    + destruct H as [->| ->]; [left; eauto | right; left; eauto].
    + destruct H as [->| ->]; [left; eauto | right; right; left; eauto].
  - intros [(p & Hp & ->)|[(p & c & Hp & Hc & ->)|[(p & b & Hp & Hb & ->)
                                                 |(r & Hr & H)]]].
    + do 5 left. right.
      destruct (joined_nonempty t p Hp) as [e He]. exists (p, e). auto.
    + do 4 left. right. exists c. destruct Hc as [Hc Hne].
      split; [|auto]. apply elem_of_remove_dups, list_elem_of_omap. eauto.
    + do 3 left. right. exists b. destruct Hb as [Hb Hne].
      split; [|auto]. apply elem_of_remove_dups, list_elem_of_omap. eauto.
    + do 2 left. right. eauto.
Qed.


Lemma build_edges_iff self conn k :
  is_Some (edges (graph (build_graph_from_db self conn)) !! k)
  <-> edge_origin (current conn) k.
Proof.
  unfold build_graph_from_db. cbn [graph]. set (t := current conn).
  rewrite (fold_left_grows add_made_by (fun g => is_Some (edges g !! k))
             (fun p => exists b, brand_of p b /\ k = brand_key (id_ p) b))
    by (intros; apply made_by_edge_present).
  rewrite (fold_left_grows add_belongs_to (fun g => is_Some (edges g !! k))
             (fun p => exists c, category_of p c /\ k = category_key (id_ p) c))
    by (intros; apply belongs_to_edge_present).
  rewrite (fold_left_grows add_relationship_edge
             (fun g => is_Some (edges g !! k)) (fun r => k = pair_of r))
    by (intros; unfold add_relationship_edge; apply add_edge_edge_present).
  rewrite brand_nodes_edges, category_nodes_edges, product_nodes_edges.
  unfold edge_origin. simpl. rewrite lookup_empty. split.
  - intros [[[[? H]|H]|(p & Hp & c & Hc & H)]|(p & Hp & b & Hb & H)].
    + discriminate H.
    + left. exact H.
    + right. left. eauto.
    + right. right. eauto.
  - intros [H|[(p & c & Hp & Hc & H)|(p & b & Hp & Hb & H)]].
    + left. left. right. exact H.
    + left. right. eauto.
    + right. eauto.
Qed.


(** X5: the built graph has no node and no edge but these: its nodes are
    the products, a category node for every non-empty category, a brand
    node for every non-empty brand and both ends of every persisted
    relationship; its edges are one per ordered pair of a persisted
    relationship, one from every product to the node of its non-empty
    category and one to the node of its non-empty brand; and every edge
    joins two nodes of the graph. *)
Theorem graph_shape self conn :
  let g := graph (build_graph_from_db self conn) in
  (forall n, is_Some (nodes g !! n) <-> node_origin (current conn) n)
  /\ (forall k, is_Some (edges g !! k) <-> edge_origin (current conn) k)
  /\ (forall u v, is_Some (edges g !! (u, v)) ->
        is_Some (nodes g !! u) /\ is_Some (nodes g !! v)).
Proof.
  intros g. split; [|split].
  - intros n. apply build_nodes_iff.
  - intros k. apply build_edges_iff.
  - intros u v. unfold g.
    rewrite build_edges_iff, !build_nodes_iff. unfold edge_origin, node_origin.
    intros [(r & Hr & [= -> ->])|[(p & c & Hp & Hc & [= -> ->])
                                 |(p & b & Hp & Hb & [= -> ->])]].
    + split; right; right; right; eauto.
    + split; [left; eauto | right; left; eauto].
    + split; [left; eauto | right; right; left; eauto].
Qed.

End GraphShape.

Lemma graph_shape_witness :
  let g := graph (build_graph_from_db Samples.fresh_service
                    (Samples.on_tables Samples.dangling_tables)) in
  is_Some (nodes g !! inl 1) /\ is_Some (nodes g !! inl 99).
Proof.
  destruct (graph_shape Samples.fresh_service
              (Samples.on_tables Samples.dangling_tables)) as (_ & _ & H).
  apply (H (inl 1) (inl 99)). vm_compute. eauto.
Defined.

(** ** [get_graph_visualization_data]: the entries of the export *)

Module Visualization.

(** [str(node_id)]. *)
Definition py_str (n : node_key) : string :=
  match n with
  | inl z => pretty z
  | inr s => s
  end.

(** [v == s] for a string literal [s]. *)
Definition eq_str (v : pyval) (s : string) : bool :=
  match v with
  | PStr x => String.eqb x s
  | _ => false
  end.

(** One entry of the [nodes] array. *)
Record node_entry : Type := {
  n_id : string;
  n_label : pyval;
  n_type : pyval;
  n_group : pyval;
  n_data : attrs
}.

(** One entry of the [links] array. *)
Record link_entry : Type := {
  l_source : string;
  l_target : string;
  l_type : pyval;
  l_score : pyval;
  l_reasoning : pyval
}.

(** The body of the loop over [graph_to_visualize.nodes(data=True)]. *)
Definition node_entry_of (node_id : node_key) (node_data : attrs) : node_entry :=
  let node_type := get node_data "node_type" (PStr "unknown") in
  let '(label, group) :=
    if eq_str node_type "product" then
      (get node_data "title" (PStr ("Product " +:+ py_str node_id)),
       get node_data "category" (PStr "Unknown"))
    else if eq_str node_type "category" then
      (get node_data "name" (PStr (py_str node_id)), PStr "Category")
    else if eq_str node_type "brand" then
      (get node_data "name" (PStr (py_str node_id)), PStr "Brand")
    else (PStr (py_str node_id), PStr "Unknown") in
  {| n_id := py_str node_id;
     n_label := label;
     n_type := node_type;
     n_group := group;
     n_data := node_data |}.

(** The body of the loop over [graph_to_visualize.edges(data=True)]. *)
Definition link_entry_of (source target : node_key) (edge_data : attrs)
  : link_entry :=
  {| l_source := py_str source;
     l_target := py_str target;
     l_type := get edge_data "relationship_type" (PStr "UNKNOWN");
     l_score := get edge_data "similarity_score" (PInt 0);
     l_reasoning := get edge_data "reasoning" (PStr "") |}.

End Visualization.

Section VisualizationProofs.

Import Visualization.





Definition category_attrs (c : string) : attrs :=
  <["node_type" := PStr "category"]> (<["name" := PStr c]> ∅).

Definition brand_attrs (b : string) : attrs :=
  <["node_type" := PStr "brand"]> (<["name" := PStr b]> ∅).

Lemma prefix_inj (pre a b : string) : pre +:+ a = pre +:+ b -> a = b.
Proof.
  induction pre as [|c pre IH]; [auto|].
  rewrite !append_cons. intros [= H]. auto.
Qed.

Lemma union_self_or_empty (a : attrs) (old : option attrs) :
  old = None \/ old = Some a -> a ∪ default ∅ old = a.
Proof.
  intros [-> | ->]; simpl; [apply (right_id ∅ (∪)) | apply (idemp (∪))].
Qed.

Lemma category_nodes_named cs g c :
  c ∈ cs -> c <> "" ->
  nodes g !! inr ("category_" +:+ c) = None ->
  nodes (fold_left add_category_node cs g) !! inr ("category_" +:+ c)
  = Some (category_attrs c).
Proof.
  intros Hc Hne Hstart. apply truthy_nonempty in Hne.
  apply (fold_left_reach add_category_node
           (fun g' => nodes g' !! inr ("category_" +:+ c) = None
                      \/ nodes g' !! inr ("category_" +:+ c)
                         = Some (category_attrs c))
           (fun g' => nodes g' !! inr ("category_" +:+ c)
                      = Some (category_attrs c)) _ _ c); auto.
  - intros g' c' _ H. unfold add_category_node.
    destruct (str_truthy c'); [|exact H].
    rewrite add_node_lookup. case_decide as Hd; [|exact H]. right.
    injection Hd as Hd. apply prefix_inj in Hd. subst c'.
    f_equal. apply union_self_or_empty. exact H.
  - intros g' H. unfold add_category_node. rewrite Hne.
    rewrite add_node_lookup, decide_True by reflexivity.
    f_equal. apply union_self_or_empty. exact H.
  - intros g' c' _ H. unfold add_category_node.
    destruct (str_truthy c'); [|exact H].
    rewrite add_node_lookup. case_decide as Hd; [|exact H].
    injection Hd as Hd. apply prefix_inj in Hd. subst c'.
    f_equal. apply union_self_or_empty. right. exact H.
Qed.

Lemma brand_nodes_named bs g b :
  b ∈ bs -> b <> "" ->
  nodes g !! inr ("brand_" +:+ b) = None ->
  nodes (fold_left add_brand_node bs g) !! inr ("brand_" +:+ b)
  = Some (brand_attrs b).
Proof.
  intros Hc Hne Hstart. apply truthy_nonempty in Hne.
  apply (fold_left_reach add_brand_node
           (fun g' => nodes g' !! inr ("brand_" +:+ b) = None
                      \/ nodes g' !! inr ("brand_" +:+ b)
                         = Some (brand_attrs b))
           (fun g' => nodes g' !! inr ("brand_" +:+ b)
                      = Some (brand_attrs b)) _ _ b); auto.
  - intros g' c' _ H. unfold add_brand_node.
    destruct (str_truthy c'); [|exact H].
    rewrite add_node_lookup. case_decide as Hd; [|exact H]. right.
    injection Hd as Hd. apply prefix_inj in Hd. subst c'.
    f_equal. apply union_self_or_empty. exact H.
  - intros g' H. unfold add_brand_node. rewrite Hne.
    rewrite add_node_lookup, decide_True by reflexivity.
    f_equal. apply union_self_or_empty. exact H.
  - intros g' c' _ H. unfold add_brand_node.
    destruct (str_truthy c'); [|exact H].
    rewrite add_node_lookup. case_decide as Hd; [|exact H].
    injection Hd as Hd. apply prefix_inj in Hd. subst c'.
    f_equal. apply union_self_or_empty. right. exact H.
Qed.

Lemma product_nodes_named rows g (x : string) :
  nodes (fold_left add_product_node rows g) !! inr x = nodes g !! inr x.
Proof.
  apply fold_left_inv; [reflexivity|]. intros g' row _ H.
  unfold add_product_node. rewrite add_node_lookup.
  rewrite decide_False by discriminate. exact H.
Qed.

Lemma brand_nodes_category bs g c :
  nodes (fold_left add_brand_node bs g) !! inr ("category_" +:+ c)
  = nodes g !! inr ("category_" +:+ c).
Proof.
  apply fold_left_inv; [reflexivity|]. intros g' b _ H.
  unfold add_brand_node. destruct (str_truthy b); [|exact H].
  rewrite add_node_lookup. rewrite decide_False; [exact H|].
  intros Heq. discriminate Heq.
Qed.

Lemma category_nodes_brand cs g b :
  nodes (fold_left add_category_node cs g) !! inr ("brand_" +:+ b)
  = nodes g !! inr ("brand_" +:+ b).
Proof.
  apply fold_left_inv; [reflexivity|]. intros g' c _ H.
  unfold add_category_node. destruct (str_truthy c); [|exact H].
  rewrite add_node_lookup. rewrite decide_False; [exact H|].
  intros Heq. discriminate Heq.
Qed.

(** X7: the node of a non-empty category or brand is exported under the
    category or brand name, with the type "category" or "brand" and the
    group "Category" or "Brand". *)
Theorem named_entry self conn p :
  let t := current conn in
  let g := graph (build_graph_from_db self conn) in
  p ∈ products t ->
  (forall c, category_of p c ->
     exists a, nodes g !! inr ("category_" +:+ c) = Some a
               /\ node_entry_of (inr ("category_" +:+ c)) a
                  = {| n_id := "category_" +:+ c; n_label := PStr c;
                       n_type := PStr "category"; n_group := PStr "Category";
                       n_data := a |})
  /\ (forall b, brand_of p b ->
        exists a, nodes g !! inr ("brand_" +:+ b) = Some a
                  /\ node_entry_of (inr ("brand_" +:+ b)) a
                     = {| n_id := "brand_" +:+ b; n_label := PStr b;
                          n_type := PStr "brand"; n_group := PStr "Brand";
                          n_data := a |}).
Proof.
  intros t g Hp. split.
  - intros c [Hc Hne]. exists (category_attrs c). split; [|reflexivity].
    unfold g. apply build_keeps_node. cbv zeta.
    apply relationship_edges_keep_node. rewrite brand_nodes_category.
    apply category_nodes_named; [|exact Hne|].
    + apply elem_of_remove_dups, list_elem_of_omap. eauto.
    + rewrite product_nodes_named. reflexivity.
  - intros b [Hb Hne]. exists (brand_attrs b). split; [|reflexivity].
    unfold g. apply build_keeps_node. cbv zeta.
    apply relationship_edges_keep_node.
    apply brand_nodes_named; [|exact Hne|].
    + apply elem_of_remove_dups, list_elem_of_omap. eauto.
    + rewrite category_nodes_brand, product_nodes_named. reflexivity.
Qed.

(** X8: the target of a persisted relationship that is no product is
    exported as a node of type "unknown" and group "Unknown", labelled
    with its id. *)
Theorem dangling_entry self conn r :
  r ∈ product_relationships (current conn) ->
  target_product_id r ∉ map id_ (products (current conn)) ->
  exists a,
    nodes (graph (build_graph_from_db self conn)) !! inl (target_product_id r)
    = Some a
    /\ node_entry_of (inl (target_product_id r)) a
       = {| n_id := pretty (target_product_id r);
            n_label := PStr (pretty (target_product_id r));
            n_type := PStr "unknown"; n_group := PStr "Unknown";
            n_data := ∅ |}.
Proof.
  intros Hr Hd. exists ∅. split; [|reflexivity].
  apply build_dangling_node; assumption.
Qed.

Definition belongs_to_attrs : attrs :=
  <["relationship_type" := PStr "BELONGS_TO"]> ∅.

Definition made_by_attrs : attrs :=
  <["relationship_type" := PStr "MADE_BY"]> ∅.

Lemma belongs_to_edge_exact ps g p c :
  p ∈ ps -> category_of p c ->
  edges g !! category_key (id_ p) c = None ->
  edges (fold_left add_belongs_to ps g) !! category_key (id_ p) c
  = Some belongs_to_attrs.
Proof.
  intros Hp Hc Hstart.
  apply (fold_left_reach add_belongs_to
           (fun g' => edges g' !! category_key (id_ p) c = None
                      \/ edges g' !! category_key (id_ p) c
                         = Some belongs_to_attrs)
           (fun g' => edges g' !! category_key (id_ p) c
                      = Some belongs_to_attrs) _ _ p); auto.
  - intros g' q _ H. destruct (category_of_dec q) as [[c' Hc']|Hno].
    + rewrite (belongs_to_adds g' q c' Hc'), add_edge_edges.
      case_decide as Hd; [|exact H]. right. rewrite Hd.
      f_equal. apply union_self_or_empty. exact H.
    + rewrite (belongs_to_skips g' q Hno). exact H.
  - intros g' H. rewrite (belongs_to_adds g' p c Hc), add_edge_edges.
    rewrite decide_True by reflexivity.
    f_equal. apply union_self_or_empty. exact H.
  - intros g' q _ H. destruct (category_of_dec q) as [[c' Hc']|Hno].
    + rewrite (belongs_to_adds g' q c' Hc'), add_edge_edges.
      case_decide as Hd; [|exact H]. rewrite Hd.
      f_equal. apply union_self_or_empty. right. exact H.
    + rewrite (belongs_to_skips g' q Hno). exact H.
Qed.

Lemma belongs_to_keeps_brand_edge ps g i b :
  edges (fold_left add_belongs_to ps g) !! brand_key i b
  = edges g !! brand_key i b.
Proof.
  apply fold_left_inv; [reflexivity|]. intros g' q _ H.
  destruct (category_of_dec q) as [[c' Hc']|Hno].
  - rewrite (belongs_to_adds g' q c' Hc'), add_edge_edges.
    rewrite decide_False; [exact H|]. apply category_brand_key.
  - rewrite (belongs_to_skips g' q Hno). exact H.
Qed.

Lemma made_by_edge_exact ps g p b :
  p ∈ ps -> brand_of p b ->
  edges g !! brand_key (id_ p) b = None ->
  edges (fold_left add_made_by ps g) !! brand_key (id_ p) b
  = Some made_by_attrs.
Proof.
  intros Hp Hc Hstart.
  apply (fold_left_reach add_made_by
           (fun g' => edges g' !! brand_key (id_ p) b = None
                      \/ edges g' !! brand_key (id_ p) b = Some made_by_attrs)
           (fun g' => edges g' !! brand_key (id_ p) b = Some made_by_attrs)
           _ _ p); auto.
  - intros g' q _ H. destruct (brand_of_dec q) as [[c' Hc']|Hno].
    + rewrite (made_by_adds g' q c' Hc'), add_edge_edges.
      case_decide as Hd; [|exact H]. right. rewrite Hd.
      f_equal. apply union_self_or_empty. exact H.
    + rewrite (made_by_skips g' q Hno). exact H.
  - intros g' H. rewrite (made_by_adds g' p b Hc), add_edge_edges.
    rewrite decide_True by reflexivity.
    f_equal. apply union_self_or_empty. exact H.
  - intros g' q _ H. destruct (brand_of_dec q) as [[c' Hc']|Hno].
    + rewrite (made_by_adds g' q c' Hc'), add_edge_edges.
      case_decide as Hd; [|exact H]. rewrite Hd.
      f_equal. apply union_self_or_empty. right. exact H.
    + rewrite (made_by_skips g' q Hno). exact H.
Qed.

Lemma no_named_edge_before_structural self conn u x :
  let t := current conn in
  edges (fold_left add_relationship_edge (product_relationships t)
           (fold_left add_brand_node (remove_dups (omap brand (products t)))
              (fold_left add_category_node
                 (remove_dups (omap category (products t)))
                 (fold_left add_product_node (products_left_join_enriched t)
                    (clear (graph self)))))) !! (u, inr x) = None.
Proof.
  cbv zeta. rewrite relationship_edges_to_name.
  rewrite brand_nodes_edges, category_nodes_edges, product_nodes_edges.
  apply lookup_empty.
Qed.

(** X9: the edge from a product to its category or brand node is exported
    with the type [BELONGS_TO] or [MADE_BY], the score 0 and an empty
    reasoning. *)
Theorem structural_link self conn p :
  let g := graph (build_graph_from_db self conn) in
  p ∈ products (current conn) ->
  (forall c, category_of p c ->
     exists a, edges g !! (inl (id_ p), inr ("category_" +:+ c)) = Some a
               /\ link_entry_of (inl (id_ p)) (inr ("category_" +:+ c)) a
                  = {| l_source := pretty (id_ p);
                       l_target := "category_" +:+ c;
                       l_type := PStr "BELONGS_TO";
                       l_score := PInt 0;
                       l_reasoning := PStr "" |})
  /\ (forall b, brand_of p b ->
        exists a, edges g !! (inl (id_ p), inr ("brand_" +:+ b)) = Some a
                  /\ link_entry_of (inl (id_ p)) (inr ("brand_" +:+ b)) a
                     = {| l_source := pretty (id_ p);
                          l_target := "brand_" +:+ b;
                          l_type := PStr "MADE_BY";
                          l_score := PInt 0;
                          l_reasoning := PStr "" |}).
Proof.
  intros g Hp. split.
  - intros c Hc. exists belongs_to_attrs. split; [|reflexivity].
    unfold g, build_graph_from_db. cbn [graph].
    change (inl (id_ p), inr ("category_" +:+ c)) with (category_key (id_ p) c).
    rewrite made_by_keeps_category_edge.
    apply belongs_to_edge_exact; [exact Hp | exact Hc |].
    apply no_named_edge_before_structural.
  - intros b Hb. exists made_by_attrs. split; [|reflexivity].
    unfold g, build_graph_from_db. cbn [graph].
    change (inl (id_ p), inr ("brand_" +:+ b)) with (brand_key (id_ p) b).
    apply made_by_edge_exact; [exact Hp | exact Hb |].
    rewrite belongs_to_keeps_brand_edge.
    apply no_named_edge_before_structural.
Qed.

(** X10: the edge between two products is exported with the type, the score
    and the reasoning of the last record stored for the pair; a NULL score
    is exported as [None], the default 0 covers a missing key only. *)
Theorem discovered_link self conn l1 r l2 :
  product_relationships (current conn) = l1 ++ r :: l2 ->
  (forall r', r' ∈ l2 -> pair_of r' <> pair_of r) ->
  exists a,
    edges (graph (build_graph_from_db self conn)) !! pair_of r = Some a
    /\ link_entry_of (inl (source_product_id r)) (inl (target_product_id r)) a
       = {| l_source := pretty (source_product_id r);
            l_target := pretty (target_product_id r);
            l_type := PStr (relationship_type r);
            l_score := opt_float (similarity_score r);
            l_reasoning := opt_str (reasoning r) |}.
Proof.
  intros Hrels Hlast.
  destruct (build_edge_last self conn l1 r l2 Hrels Hlast)
    as (a & Ha & Hty & Hsc & Hre).
  exists a. split; [exact Ha|].
  unfold link_entry_of, get. rewrite Hty, Hsc, Hre. reflexivity.
Qed.

End VisualizationProofs.

Lemma named_entry_witness :
  exists a,
    nodes (graph (build_graph_from_db Samples.fresh_service
                    (Samples.on_tables Samples.dangling_tables)))
      !! inr "category_Mice" = Some a
    /\ Visualization.n_label
         (Visualization.node_entry_of (inr "category_Mice") a) = PStr "Mice".
Proof.
  destruct (named_entry Samples.fresh_service
              (Samples.on_tables Samples.dangling_tables)
              (Samples.product 1 "Acme Wireless Mouse" (Some "Mice")
                 (Some "Acme"))) as [H _].
  - left.
  - destruct (H "Mice") as (a & Ha & Hentry).
    + split; [reflexivity | discriminate].
    + exists a. split; [exact Ha|].
      exact (f_equal Visualization.n_label Hentry).
Defined.

Lemma dangling_entry_witness :
  exists a,
    nodes (graph (build_graph_from_db Samples.fresh_service
                    (Samples.on_tables Samples.dangling_tables))) !! inl 99
    = Some a
    /\ Visualization.n_type (Visualization.node_entry_of (inl 99) a)
       = PStr "unknown".
Proof.
  destruct (dangling_entry Samples.fresh_service
              (Samples.on_tables Samples.dangling_tables)
              (Samples.relationship 1 99 "SIMILAR_TO" (Some (4 # 5)%Q)))
    as (a & Ha & Hentry).
  - left.
  - intros H. apply list_elem_of_In in H. simpl in H.
    repeat destruct H as [H|H]; try discriminate H. exact H.
  - exists a. split; [exact Ha|].
    exact (f_equal Visualization.n_type Hentry).
Defined.

Lemma structural_link_witness :
  exists a,
    edges (graph (build_graph_from_db Samples.fresh_service
                    (Samples.on_tables Samples.dangling_tables)))
      !! (inl 1, inr "brand_Acme") = Some a
    /\ Visualization.l_score
         (Visualization.link_entry_of (inl 1) (inr "brand_Acme") a) = PInt 0.
Proof.
  destruct (structural_link Samples.fresh_service
              (Samples.on_tables Samples.dangling_tables)
              (Samples.product 1 "Acme Wireless Mouse" (Some "Mice")
                 (Some "Acme"))) as [_ H].
  - left.
  - destruct (H "Acme") as (a & Ha & Hentry).
    + split; [reflexivity | discriminate].
    + exists a. split; [exact Ha|].
      exact (f_equal Visualization.l_score Hentry).
Defined.

(** A relationship stored without a score. *)
Definition unscored_link : tables :=
  {| products := Samples.catalog;
     enriched_products := [];
     product_relationships := [Samples.relationship 1 2 "SIMILAR_TO" None] |}.

Lemma discovered_link_witness :
  exists a,
    edges (graph (build_graph_from_db Samples.fresh_service
                    (Samples.on_tables unscored_link))) !! (inl 1, inl 2)
    = Some a
    /\ Visualization.l_score
         (Visualization.link_entry_of (inl 1) (inl 2) a) = PNone.
Proof.
  destruct (discovered_link Samples.fresh_service
              (Samples.on_tables unscored_link) []
              (Samples.relationship 1 2 "SIMILAR_TO" None) [])
    as (a & Ha & Hentry).
  - reflexivity.
  - intros r' Hr'. inversion Hr'.
  - exists a. split; [exact Ha|].
    exact (f_equal Visualization.l_score Hentry).
Defined.

(** ** Discovery round: further properties *)

Section RoundProofs.

Variable World : Type.
Variable propose :
  World -> source_product -> list other_product -> World * result (list proposal).

Lemma no_source_row t pid :
  pid ∉ map id_ (products t) ->
  filter (fun row => id_ row.1 = pid) (products_left_join_enriched t) = [].
Proof.
  intros Hno.
  destruct (filter _ (products_left_join_enriched t)) as [|row rows] eqn:Hf;
    [reflexivity|].
  exfalso. apply Hno.
  assert (Hin : row ∈ filter (fun row => id_ row.1 = pid)
                  (products_left_join_enriched t)) by (rewrite Hf; left).
  apply list_elem_of_filter in Hin as [<- Hin].
  apply joined_row in Hin as [Hin _].
  apply list_elem_of_In, in_map, list_elem_of_In. exact Hin.
Qed.

(** X11: without a configured client, or for an id that is no product, the
    round raises [ValueError] before the provider is consulted: service,
    connection and provider are left as they were. *)
Theorem round_refused self pid conn w :
  client self = false \/ pid ∉ map id_ (products (current conn)) ->
  analyze_product_relationships World propose self pid conn w
  = ((self, conn, w), Err ValueError).
Proof.
  intros H. unfold analyze_product_relationships.
  destruct (client self); simpl.
  - destruct H as [H|H]; [discriminate H|].
    rewrite (no_source_row _ _ H). reflexivity.
  - reflexivity.
Qed.






(** X13: a round that fails changes neither the graph nor what is committed,
    and leaves nothing pending: records stored before the failure are
    rolled back, together with whatever the caller had not committed. *)
Theorem round_failure self pid conn w self' conn' w' e :
  analyze_product_relationships World propose self pid conn w
    = ((self', conn', w'), Err e) ->
  self' = self
  /\ committed conn' = committed conn
  /\ (conn' = conn \/ conn' = rollback conn)
  /\ (e = ValueError \/ e = Exception_).
Proof.
  unfold analyze_product_relationships.
  destruct (client self); simpl.
  - destruct (filter _ (products_left_join_enriched (current conn)))
      as [|source_row rows].
    + intros [= <- <- <- <-]. auto.
    + cbv zeta. destruct (propose _ _ _) as [w1 [answer|e1]].
      * destruct (store_all conn _ answer) as [conn1|e2]; [discriminate|].
        intros [= <- <- <- <-]. auto.
      * intros [= <- <- <- <-]. auto.
  - intros [= <- <- <- <-]. auto.
Qed.




#[local] Instance by_id_total : Total by_id.
Proof. intros a b. unfold by_id. lia. Qed.

#[local] Instance by_id_trans : Transitive by_id.
Proof. intros a b c. unfold by_id. lia. Qed.

(** What the provider is shown: the analysed product as source, and at
    most 20 other products of the catalog, by ascending id. *)
Definition pool_ok (t : tables) (pid : Z) (source : source_product)
    (others : list other_product) : Prop :=
  sp_id source = pid
  /\ (length others <= 20)%nat
  /\ Forall (fun o => op_id o <> pid /\ op_id o ∈ map id_ (products t)) others
  /\ StronglySorted (fun a b => op_id a <= op_id b) others.

Lemma other_products_sorted rows :
  StronglySorted by_id rows ->
  StronglySorted (fun a b => op_id a <= op_id b) (map other_product_of rows).
Proof.
  induction 1 as [|row rows _ IH Hall]; simpl; constructor; [exact IH|].
  apply Forall_forall. intros o Ho.
  apply list_elem_of_In, in_map_iff in Ho as (row' & <- & Hrow').
  rewrite Forall_forall in Hall. apply list_elem_of_In in Hrow'.
  specialize (Hall row' Hrow'). destruct row, row'. exact Hall.
Qed.

Lemma candidate_pool_ok t pid :
  let others :=
    map other_product_of
      (firstn 20
         (merge_sort by_id
            (filter (fun row => id_ row.1 <> pid)
               (products_left_join_enriched t)))) in
  (length others <= 20)%nat
  /\ Forall (fun o => op_id o <> pid /\ op_id o ∈ map id_ (products t)) others
  /\ StronglySorted (fun a b => op_id a <= op_id b) others.
Proof.
  cbv zeta. split; [|split].
  - rewrite length_map, length_take. lia.
  - apply Forall_forall. intros o Ho.
    apply list_elem_of_In, in_map_iff in Ho as (row & <- & Hrow).
    apply list_elem_of_In in Hrow. apply subseteq_take in Hrow.
    rewrite merge_sort_Permutation in Hrow.
    apply list_elem_of_filter in Hrow as [Hne Hrow].
    apply joined_row in Hrow as [Hrow _]. destruct row as [p e]. simpl in *.
    split; [exact Hne|].
    apply list_elem_of_In, in_map, list_elem_of_In. exact Hrow.
  - apply other_products_sorted.
    set (sorted := merge_sort by_id _).
    apply (StronglySorted_app_1_l _ _ (drop 20 sorted)).
    rewrite take_drop. apply StronglySorted_merge_sort; apply _.
Qed.

(** X15: the round depends on the provider only through its answer to a pool
    of that shape: two providers that agree on such pools give the same
    round. *)
Theorem provider_sees_bounded_pool
    (propose' : World -> source_product -> list other_product
                -> World * result (list proposal)) self pid conn w :
  (forall w0 source others,
     pool_ok (current conn) pid source others ->
     propose w0 source others = propose' w0 source others) ->
  analyze_product_relationships World propose self pid conn w
  = analyze_product_relationships World propose' self pid conn w.
Proof.
  intros Hagree. unfold analyze_product_relationships.
  destruct (client self); simpl; [|reflexivity].
  destruct (filter _ (products_left_join_enriched (current conn)))
    as [|source_row rows] eqn:Hf; [reflexivity|].
  cbv zeta. rewrite Hagree; [reflexivity|].
  split; [|apply candidate_pool_ok].
  assert (Hin : source_row ∈ filter (fun row => id_ row.1 = pid)
                  (products_left_join_enriched (current conn)))
    by (rewrite Hf; left).
  apply list_elem_of_filter in Hin as [Hin _].
  destruct source_row. exact Hin.
Qed.

End RoundProofs.



Lemma round_refused_witness :
  analyze_product_relationships unit Samples.noisy_provider
    Samples.fresh_service 7 (Samples.on_tables Samples.catalog_tables) tt
  = ((Samples.fresh_service, Samples.on_tables Samples.catalog_tables, tt),
     Err ValueError).
Proof.
  apply round_refused. right.
  intros H. apply list_elem_of_In in H. simpl in H.
  repeat destruct H as [H|H]; try discriminate H. exact H.
Defined.


Lemma round_failure_witness :
  let out := analyze_product_relationships unit Samples.flaky_provider
               Samples.fresh_service 2
               (Samples.on_tables Samples.catalog_tables) tt in
  out.1.1.1 = Samples.fresh_service
  /\ committed out.1.1.2 = Samples.catalog_tables.
Proof.
  cbv zeta.
  destruct (analyze_product_relationships unit Samples.flaky_provider
              Samples.fresh_service 2
              (Samples.on_tables Samples.catalog_tables) tt)
    as [[[self' conn'] w'] [rels|e]] eqn:Hrun;
    [vm_compute in Hrun; discriminate Hrun|].
  destruct (round_failure _ _ _ _ _ _ _ _ _ _ Hrun) as (Hs & Hc & _).
  simpl. split; [exact Hs | exact Hc].
Defined.


Lemma provider_sees_bounded_pool_witness :
  analyze_product_relationships unit Samples.noisy_provider
    Samples.fresh_service 1 (Samples.on_tables Samples.catalog_tables) tt
  = analyze_product_relationships unit
      (fun w source others =>
         if (length others <=? 20)%nat then Samples.noisy_provider w source others
         else (w, Err Exception_))
      Samples.fresh_service 1 (Samples.on_tables Samples.catalog_tables) tt.
Proof.
  apply provider_sees_bounded_pool.
  intros w0 source others (_ & Hlen & _).
  apply Nat.leb_le in Hlen. rewrite Hlen. reflexivity.
Defined.

(** ** Batch run: further properties *)

Section BatchProofs.

Variable World : Type.
Variable propose :
  World -> source_product -> list other_product -> World * result (list proposal).

Lemma batch_loop_refused total cb ids st :
  client (b_self st) = false ->
  batch_loop World propose total cb ids st
  = {| b_self := b_self st; b_conn := b_conn st; b_world := b_world st;
       b_processed := b_processed st + Z.of_nat (length ids);
       b_relationships_created := b_relationships_created st;
       b_events := b_events st ++ map Printed ids |}.
Proof.
  intros Hclient. revert st Hclient. unfold batch_loop.
  induction ids as [|pid ids IH]; intros st Hclient; simpl.
  - rewrite Z.add_0_r, app_nil_r. destruct st; reflexivity.
  - unfold batch_iteration at 2, analyze_product_relationships.
    rewrite Hclient. cbn [negb]. cbv iota beta.
    rewrite IH by exact Hclient. simpl.
    rewrite <- app_assoc. simpl. f_equal. lia.
Qed.

(** X16: without a configured client the batch attempts every product and
    changes nothing: each round is refused, the provider is never
    consulted, store and graph stay as they were, a line is printed per
    product and the summary counts every product as processed, with no
    relationship. *)
Theorem batch_without_client self conn w cb :
  client self = false ->
  batch_analyze_all_products World propose self conn w cb
  = ({| b_self := self; b_conn := conn; b_world := w;
        b_processed := Z.of_nat (length (products (current conn)));
        b_relationships_created := 0;
        b_events := map Printed (map id_ (products (current conn))) |},
     {| total_products := Z.of_nat (length (products (current conn)));
        processed := Z.of_nat (length (products (current conn)));
        total_relationships := 0 |}).
Proof.
  intros Hclient. unfold batch_analyze_all_products.
  rewrite batch_loop_refused by exact Hclient. simpl.
  rewrite !length_map. reflexivity.
Qed.

(** The relationships an event reports. *)
Definition event_found (e : event) : Z :=
  match e with
  | Progress p => pg_relationships_found p
  | Printed _ => 0
  end.

Definition is_progress (e : event) : bool :=
  match e with
  | Progress _ => true
  | Printed _ => false
  end.

Fixpoint sum_found (es : list event) : Z :=
  match es with
  | [] => 0
  | e :: es' => event_found e + sum_found es'
  end.

Lemma sum_found_app es1 es2 : sum_found (es1 ++ es2) = sum_found es1 + sum_found es2.
Proof. induction es1 as [|e es1 IH]; simpl; [reflexivity | rewrite IH; lia]. Qed.

Lemma batch_loop_found total f ids st :
  never_raises (Some f) ->
  let st' := batch_loop World propose total (Some f) ids st in
  b_relationships_created st' - sum_found (b_events st')
  = b_relationships_created st - sum_found (b_events st).
Proof.
  intros Hcb. cbv zeta. revert st. unfold batch_loop.
  induction ids as [|pid ids IH]; intros st; simpl; [reflexivity|].
  rewrite IH.
  pose proof (batch_iteration_spec World propose total (Some f) st pid Hcb)
    as (_ & _ & Hc & He).
  rewrite Hc, He, sum_found_app.
  destruct (analyze_product_relationships World propose (b_self st) pid
              (b_conn st) (b_world st)).2; simpl; lia.
Qed.

(** X17: with an observer that does not raise, the total of the summary is
    the sum of the counts the observer was given. *)
Theorem summary_matches_progress self conn w f :
  never_raises (Some f) ->
  let run := batch_analyze_all_products World propose self conn w (Some f) in
  total_relationships run.2 = sum_found (b_events run.1).
Proof.
  intros Hcb. cbv zeta. unfold batch_analyze_all_products. simpl.
  pose proof (batch_loop_found
                (Z.of_nat (length (map id_ (products (current conn))))) f
                (map id_ (products (current conn)))
                {| b_self := self; b_conn := conn; b_world := w;
                   b_processed := 0; b_relationships_created := 0;
                   b_events := [] |} Hcb) as H.
  cbv zeta in H. simpl in H. lia.
Qed.

Definition always_raises (f : progress -> result unit) : Prop :=
  forall p, exists e, f p = Err e.

Lemma batch_iteration_raising total f st pid :
  always_raises f ->
  let st' := batch_iteration World propose total (Some f) st pid in
  b_processed st' - Z.of_nat (length (filter is_progress (b_events st')))
  = b_processed st + 1
    - Z.of_nat (length (filter is_progress (b_events st))).
Proof.
  intros Hf. cbv zeta. unfold batch_iteration.
  destruct (analyze_product_relationships World propose (b_self st) pid
              (b_conn st) (b_world st)) as [[[self' conn'] w'] [rels|e]].
  - match goal with
    | |- context [f ?p] => destruct (Hf p) as [e He]; rewrite He
    end.
    simpl. rewrite filter_app, length_app. simpl. lia.
  - simpl. rewrite filter_app, length_app. simpl. lia.
Qed.

(** X18: an observer that raises is caught by the handler of the failed
    rounds, which counts the product a second time: with an observer that
    always raises, [processed] ends at the number of products plus the
    number of rounds that succeeded, and so exceeds [total_products] as
    soon as one round succeeds. *)
Theorem raising_observer_overcounts self conn w f :
  always_raises f ->
  let run := batch_analyze_all_products World propose self conn w (Some f) in
  processed run.2
  = total_products run.2
    + Z.of_nat (length (filter is_progress (b_events run.1))).
Proof.
  intros Hf. cbv zeta. unfold batch_analyze_all_products. simpl.
  set (total := Z.of_nat (length (map id_ (products (current conn))))).
  assert (H : forall ids st,
             b_processed (batch_loop World propose total (Some f) ids st)
             - Z.of_nat (length (filter is_progress
                   (b_events (batch_loop World propose total (Some f) ids st))))
             = b_processed st + Z.of_nat (length ids)
               - Z.of_nat (length (filter is_progress (b_events st)))).
  { unfold batch_loop. induction ids as [|pid ids IH]; intros st; simpl; [lia|].
    rewrite IH.
    pose proof (batch_iteration_raising total f st pid Hf) as Hstep.
    cbv zeta in Hstep. lia. }
  specialize (H (map id_ (products (current conn)))
                {| b_self := self; b_conn := conn; b_world := w;
                   b_processed := 0; b_relationships_created := 0;
                   b_events := [] |}).
  simpl in H. unfold total in *. lia.
Qed.

End BatchProofs.

Lemma batch_without_client_witness :
  processed
    (batch_analyze_all_products unit Samples.noisy_provider
       {| graph := graph Samples.fresh_service; client := false |}
       (Samples.on_tables Samples.catalog_tables) tt None).2 = 3.
Proof.
  rewrite (batch_without_client unit Samples.noisy_provider
             {| graph := graph Samples.fresh_service; client := false |}
             (Samples.on_tables Samples.catalog_tables) tt None eq_refl).
  reflexivity.
Defined.

Lemma summary_matches_progress_witness :
  let run := batch_analyze_all_products unit Samples.flaky_provider
               Samples.fresh_service
               (Samples.on_tables Samples.catalog_tables) tt
               (Some Samples.quiet_observer) in
  total_relationships run.2 = sum_found (b_events run.1).
Proof.
  apply (summary_matches_progress unit Samples.flaky_provider).
  intros f [= <-] p. reflexivity.
Defined.

Lemma raising_observer_overcounts_witness :
  let run := batch_analyze_all_products unit Samples.flaky_provider
               Samples.fresh_service
               (Samples.on_tables Samples.catalog_tables) tt
               (Some (fun _ => Err ValueError)) in
  processed run.2
  = total_products run.2
    + Z.of_nat (length (filter is_progress (b_events run.1))).
Proof.
  apply (raising_observer_overcounts unit Samples.flaky_provider).
  intros p. exists ValueError. reflexivity.
Defined.

(** ** Recommendations: further properties *)

Section RecommendationEdges.




Lemma slice_to_length {A : Type} (l : list A) (n : Z) :
  Z.of_nat (length (slice_to l n))
  = if 0 <=? n then Z.min n (Z.of_nat (length l))
    else Z.max 0 (Z.of_nat (length l) + n).
Proof.
  unfold slice_to. destruct (0 <=? n) eqn:Hn; rewrite length_take.
  - apply Z.leb_le in Hn. lia.
  - apply Z.leb_gt in Hn. lia.
Qed.

(** X20: how many entries a list of the answer has, for [n] relationships of
    its kind: [min(limit, n)] for a limit that is not negative, and
    [max(0, n + limit)] for a negative one, which cuts that many entries
    off the end instead of bounding the list. *)
Theorem recommendations_length self pid conn limit recs :
  let rels := get_product_relationships self pid conn in
  let kept (n : nat) : Z :=
    if 0 <=? default 5 limit then Z.min (default 5 limit) (Z.of_nat n)
    else Z.max 0 (Z.of_nat n + default 5 limit) in
  get_recommendations self pid conn limit = Ok recs ->
  Z.of_nat (length (similar recs))
    = kept (length (filter (of_type "SIMILAR_TO") rels))
  /\ Z.of_nat (length (complements recs))
     = kept (length (filter (of_type "COMPLEMENTS") rels))
  /\ Z.of_nat (length (alternatives recs))
     = kept (length (filter (of_type "ALTERNATIVE_TO") rels)).
Proof.
  intros rels kept. unfold get_recommendations. fold rels.
  destruct (append_by_type_partition rels
              {| similar := []; complements := []; alternatives := [] |})
    as (Ps & Pc & Pa).
  cbv zeta in Ps, Pc, Pa. simpl in Ps, Pc, Pa. rewrite Ps, Pc, Pa.
  intros H.
  apply bind_inv in H as (s & Hs & H).
  apply bind_inv in H as (c & Hc & H).
  apply bind_inv in H as (a & Ha & H).
  injection H as <-. cbn [similar complements alternatives].
  rewrite !slice_to_length. unfold kept.
  assert (Hlen : forall l out,
             sorted_reverse v_similarity_score l = Ok out ->
             length out = length l).
  { intros l out Hout. destruct l as [|x [|y l]];
      try (injection Hout as <-; reflexivity).
    unfold sorted_reverse in Hout.
    destruct (mapM _ (x :: y :: l)) as [kl|] eqn:Hm; [|discriminate].
    injection Hout as <-. rewrite length_map.
    rewrite (Permutation_length (sort_desc_perm kl)).
    apply mapM_Some in Hm. symmetry. exact (Forall2_length _ _ _ Hm). }
  rewrite (Hlen _ _ Hs), (Hlen _ _ Hc), (Hlen _ _ Ha). auto.
Qed.

End RecommendationEdges.


Lemma recommendations_length_witness :
  exists recs,
    get_recommendations Samples.fresh_service 1
      (Samples.on_tables Samples.tied_tables) (Some (-1)) = Ok recs
    /\ Z.of_nat (length (similar recs)) = 1.
Proof.
  destruct (get_recommendations Samples.fresh_service 1
              (Samples.on_tables Samples.tied_tables) (Some (-1)))
    as [recs|e] eqn:Hrun; [|vm_compute in Hrun; discriminate Hrun].
  exists recs. split; [reflexivity|].
  destruct (recommendations_length _ _ _ _ _ Hrun) as [H _].
  rewrite H. vm_compute. reflexivity.
Defined.

Section OneViewPerRecord.

Lemma filter_at_most_one {A : Type} (f : A -> Z) (P : A -> Prop)
    `{forall y, Decision (P y)} (k : Z) (l : list A) :
  (forall y, P y <-> f y = k) -> NoDup (map f l) ->
  filter P l = [] \/ exists x, filter P l = [x].
Proof.
  intros HP. induction l as [|y l IH]; simpl; intros Hnd; [left; reflexivity|].
  apply NoDup_cons in Hnd as [Hy Hnd]. rewrite filter_cons.
  destruct (decide (P y)) as [Hpy|Hpy]; [|apply IH; exact Hnd].
  right. exists y. f_equal.
  destruct (filter P l) as [|z zs] eqn:Hf; [reflexivity|].
  exfalso. apply Hy.
  assert (Hz : z ∈ filter P l) by (rewrite Hf; left).
  apply list_elem_of_filter in Hz as [Hpz Hz].
  apply HP in Hpy, Hpz. rewrite Hpy, <- Hpz.
  apply list_elem_of_In, in_map, list_elem_of_In. exact Hz.
Qed.

Lemma left_join_single t p :
  NoDup (map product_id (enriched_products t)) ->
  exists e, left_join_enriched t p = [(p, e)].
Proof.
  intros Hnd. unfold left_join_enriched.
  destruct (filter_at_most_one product_id (fun e => product_id e = id_ p)
              (id_ p) (enriched_products t) ltac:(tauto) Hnd)
    as [Hf|[e Hf]]; rewrite Hf; eauto.
Qed.

Lemma join_target_ids t pr :
  NoDup (map id_ (products t)) ->
  NoDup (map product_id (enriched_products t)) ->
  map v_product_id (join_target t pr)
  = if decide (target_product_id pr ∈ map id_ (products t))
    then [target_product_id pr] else [].
Proof.
  intros Hids Henr. unfold join_target.
  destruct (filter_at_most_one id_ (fun p => target_product_id pr = id_ p)
              (target_product_id pr) (products t)
              ltac:(intros; split; congruence) Hids) as [Hf|[p Hf]];
    rewrite Hf; simpl.
  - rewrite decide_False; [reflexivity|]. intros Hin.
    apply list_elem_of_In, in_map_iff in Hin as (p & Hid & Hp).
    assert (Hp' : p ∈ filter (fun p => target_product_id pr = id_ p)
                    (products t)).
    { apply list_elem_of_filter. split; [congruence|].
      apply list_elem_of_In. exact Hp. }
    rewrite Hf in Hp'. inversion Hp'.
  - destruct (left_join_single t p Henr) as [e ->]. simpl.
    assert (Hp : p ∈ filter (fun p => target_product_id pr = id_ p)
                   (products t)) by (rewrite Hf; left).
    apply list_elem_of_filter in Hp as [Hid Hp].
    rewrite decide_True; [reflexivity|]. rewrite Hid.
    apply list_elem_of_In, in_map, list_elem_of_In. exact Hp.
Qed.

(** The relationships [get_product_relationships] reads for a product:
    its records whose target is a product. *)
Definition outgoing (t : tables) (pid : Z) (r : relationship_row) : Prop :=
  source_product_id r = pid /\ target_product_id r ∈ map id_ (products t).

#[local] Instance outgoing_decision t pid r : Decision (outgoing t pid r).
Proof. unfold outgoing. apply _. Defined.

(** X21: with distinct product ids and at most one enrichment per product, a
    product has one relationship view per stored record that targets a
    product; records with an unknown target have no view.  The query has
    no [ORDER BY], so the views are counted up to their order. *)
Theorem one_view_per_record self pid conn :
  let t := current conn in
  NoDup (map id_ (products t)) ->
  NoDup (map product_id (enriched_products t)) ->
  map v_product_id (get_product_relationships self pid conn)
  ≡ₚ map target_product_id (filter (outgoing t pid) (product_relationships t)).
Proof.
  intros t Hids Henr. unfold get_product_relationships. fold t.
  match goal with |- ?l ≡ₚ ?r => cut (l = r); [now intros ->|] end.
  induction (product_relationships t) as [|r rels IH]; [reflexivity|].
  rewrite !filter_cons.
  destruct (decide (source_product_id r = pid)) as [Hsrc|Hsrc].
  - simpl. rewrite map_app, IH, (join_target_ids t r Hids Henr).
    destruct (decide (target_product_id r ∈ map id_ (products t))) as [Hin|Hin].
    + rewrite decide_True by (split; assumption). reflexivity.
    + rewrite decide_False by (intros [_ H]; contradiction). reflexivity.
  - rewrite IH. rewrite decide_False by (intros [H _]; contradiction).
    reflexivity.
Qed.

End OneViewPerRecord.

Lemma one_view_per_record_witness :
  map v_product_id
    (get_product_relationships Samples.fresh_service 1
       (Samples.on_tables Samples.dangling_tables)) ≡ₚ [].
Proof.
  rewrite (one_view_per_record Samples.fresh_service 1
             (Samples.on_tables Samples.dangling_tables)).
  - vm_compute. reflexivity.
  - apply (bool_decide_unpack _). vm_compute. exact I.
  - apply (bool_decide_unpack _). vm_compute. exact I.
Defined.

(** ** Store, read and rebuild together *)

Section StoreThenRead.

(** X22: once a relationship to a product is stored, the same connection
    reads it back among the relationships of the source, with the stored
    type, score and reasoning, and a rebuild puts those on the edge from
    source to target. *)
Theorem stored_relationship_visible self conn s t ty q why p :
  p ∈ products (current conn) -> id_ p = t ->
  let conn' := _store_relationship conn s t ty q why in
  (exists v, v ∈ get_product_relationships self s conn'
             /\ v_product_id v = t
             /\ v_sku v = sku p
             /\ v_relationship_type v = ty
             /\ v_similarity_score v = Some q
             /\ v_reasoning v = Some why)
  /\ (exists a,
        edges (graph (build_graph_from_db self conn')) !! (inl s, inl t) = Some a
        /\ a !! "relationship_type" = Some (PStr ty)
        /\ a !! "similarity_score" = Some (PFloat q)
        /\ a !! "reasoning" = Some (PStr why)).
Proof.
  intros Hp Hid conn'.
  set (r := {| source_product_id := s; target_product_id := t;
               relationship_type := ty; similarity_score := Some q;
               reasoning := Some why |}).
  split.
  - destruct (relationship_view_complete self conn' r p) as ([p' e] & Hrow & Hv).
    + simpl. apply insert_or_replace_new.
    + exact Hp.
    + simpl. congruence.
    + pose proof (left_join_row _ _ _ Hrow) as [Hp' _]. simpl in Hp'. subst p'.
      exists (view_of r (p, e)). simpl in Hv. simpl. auto 10.
  - destruct (build_edge_last self conn'
                (filter (fun x => ~ same_triple x r)
                   (product_relationships (current conn))) r [])
      as (a & Ha & Hty & Hsc & Hre).
    + reflexivity.
    + intros r' Hr'. inversion Hr'.
    + exists a. auto.
Qed.

End StoreThenRead.

Lemma stored_relationship_visible_witness :
  exists v,
    v ∈ get_product_relationships Samples.fresh_service 1
          (_store_relationship (Samples.on_tables Samples.catalog_tables)
             1 3 "COMPLEMENTS" (3 # 4)%Q "pad for the mouse")
    /\ v_product_id v = 3
    /\ v_similarity_score v = Some (3 # 4)%Q.
Proof.
  destruct (stored_relationship_visible Samples.fresh_service
              (Samples.on_tables Samples.catalog_tables)
              1 3 "COMPLEMENTS" (3 # 4)%Q "pad for the mouse"
              (Samples.product 3 "Mouse Pad" None None))
    as [(v & Hv & Hid & _ & _ & Hsc & _) _].
  - right. right. left.
  - reflexivity.
  - exists v. auto.
Defined.
